(** * Omni-Downloader: generate_release_files.py

    A shallow embedding of the release-manifest generator: the repository
    identifier extractor, the release fetcher, the INI section scanner, the
    tag clean-up, the per-category loop that fills a [configparser] object
    and writes it, and the four-category driver.

    Python [str] values are lists of characters ([list ascii], code points
    below 256).  The pieces of the Python standard library the script calls
    ([re], [str] methods, [configparser], text-mode file reads) are
    transcribed from CPython 3.11 with the script's settings. *)

From Stdlib Require Import Ascii String NArith.
From stdpp Require Import base option list gmap strings.

Local Open Scope string_scope.
Local Open Scope list_scope.

Abbreviation str := (list ascii).

(** String literals are read as lists of characters. *)
Coercion list_ascii_of_string : string >-> list.

(** ** Python string primitives *)

Module Py.

(** [str.isspace] on one character, also the class [\s] of [re] on [str]
    patterns: TAB..CR, FS..US, space, NEL and NBSP below code point 256. *)
Definition isspace (c : ascii) : bool :=
  let n := N_of_ascii c in
  ((9 <=? n) && (n <=? 13) || (28 <=? n) && (n <=? 32) || (n =? 133) || (n =? 160))%N.

(** Longest prefix whose characters satisfy [p], and the rest. *)
Fixpoint span (p : ascii → bool) (s : str) : str * str :=
  match s with
  | [] => ([], [])
  | c :: s' => if p c then let '(a, b) := span p s' in (c :: a, b) else ([], s)
  end.

(** [s.lstrip(chars)] for a single character [c]. *)
Definition lstrip_char (c : ascii) (s : str) : str := (span (Ascii.eqb c) s).2.

(** [s.lstrip()], [s.rstrip()], [s.strip()] on whitespace. *)
Definition lstrip (s : str) : str := (span isspace s).2.
Definition rstrip (s : str) : str := reverse (lstrip (reverse s)).
Definition strip (s : str) : str := rstrip (lstrip s).

(** [c in s] for a single character. *)
Definition contains (c : ascii) (s : str) : bool := existsb (Ascii.eqb c) s.

(** [s.split(sep)] for a single-character separator: always at least one part. *)
Fixpoint split (sep : ascii) (s : str) : list str :=
  match s with
  | [] => [[]]
  | c :: s' =>
      if Ascii.eqb c sep then [] :: split sep s'
      else match split sep s' with
           | p :: ps => (c :: p) :: ps
           | [] => [[c]]
           end
  end.

(** [l[-k]] for [k ≥ 1]; [None] stands for [IndexError]. *)
Definition index_from_end {A} (l : list A) (k : nat) : option A := reverse l !! (k - 1)%nat.

(** [s.startswith(p)], returning the remainder. *)
Fixpoint strip_prefix (p s : str) : option str :=
  match p, s with
  | [], _ => Some s
  | a :: p', b :: s' => if Ascii.eqb a b then strip_prefix p' s' else None
  | _ :: _, [] => None
  end.

Definition startswith (p s : str) : bool := bool_decide (is_Some (strip_prefix p s)).

(** [re.search] for a pattern given by its matcher at one position: the
    leftmost position at which the matcher succeeds. *)
Fixpoint re_search {A} (m : str → option A) (s : str) : option A :=
  match m s with
  | Some x => Some x
  | None => match s with
            | [] => None
            | _ :: s' => re_search m s'
            end
  end.

(** Truth value of an [Optional[str]]: [None] and [''] are false. *)
Definition truthy (o : option str) : bool :=
  match o with Some (_ :: _) => true | _ => false end.

(** The newline character. *)
Definition LF : ascii := "010"%char.

(** [re.finditer] / [re.findall] for a pattern given by its matcher at one
    position.  The matcher is told whether the position is at the beginning
    of a line ([^] under [re.MULTILINE]: the start of the subject or just
    after a newline) and returns its value with the number of characters
    matched (at least one for the patterns of this script).  [skip] counts
    the characters still covered by the previous match: the scan resumes
    where that match ended. *)
Fixpoint re_finditer_from {A} (m : bool → str → option (A * nat))
    (skip : nat) (bol : bool) (s : str) : list A :=
  match s with
  | [] => []
  | c :: s' =>
      let bol' := Ascii.eqb c LF in
      match skip with
      | S k => re_finditer_from m k bol' s'
      | O =>
          match m bol s with
          | Some (x, n) => x :: re_finditer_from m (n - 1) bol' s'
          | None => re_finditer_from m 0 bol' s'
          end
      end
  end.

Definition re_finditer {A} (m : bool → str → option (A * nat)) (s : str) : list A :=
  re_finditer_from m 0 true s.

(** [re.search(...).start()] for a pattern whose matcher only says whether
    it matches at a position. *)
Fixpoint re_search_start (m : bool → str → bool) (bol : bool) (s : str) : option nat :=
  if m bol s then Some 0%nat
  else match s with
       | [] => None
       | c :: s' => S <$> re_search_start m (Ascii.eqb c LF) s'
       end.

End Py.

(** ** Repository identifier extractor *)

Definition not_slash (c : ascii) : bool := negb (Ascii.eqb c "/").

(** The pattern [/repos/([^/]+)/([^/]+)/releases] tried at the head of [s].
    A greedy [[^/]+] stops at the first ['/'] or at the end; giving
    characters back cannot help, since the next pattern item is a literal
    ['/'] and a shorter run is followed by a non-['/'] character. *)
Definition match_repo (s : str) : option (str * str) :=
  s1 ← Py.strip_prefix "/repos/" s;
  let '(o, s2) := Py.span not_slash s1 in
  if bool_decide (o = []) then None else
  s3 ← Py.strip_prefix "/" s2;
  let '(r, s4) := Py.span not_slash s3 in
  if bool_decide (r = []) then None else
  _ ← Py.strip_prefix "/releases" s4;
  Some (o, r).

Definition extract_repo_from_url (url : str) : option (str * str) :=
  Py.re_search match_repo url.

(** ** Tag clean-up (lines 126-139 of [generate_release_ini]) *)

Definition clean_tag_of (tag : str) : str :=
  let clean_tag := Py.lstrip_char "v" tag in
  if (30 <? length clean_tag)%nat then
    if Py.contains "-" clean_tag then
      let parts := Py.split "-" clean_tag in
      if (1 <? length parts)%nat
         && (20 <? length (default [] (Py.index_from_end parts 1)))%nat then
        if (1 <? length parts)%nat then
          default [] (Py.index_from_end parts 2) ++ "-"
            ++ take 7 (default [] (Py.index_from_end parts 1))
        else take 7 (default [] (Py.index_from_end parts 1))
      else take 30 clean_tag
    else take 30 clean_tag
  else clean_tag.

(** ** Section name of a category (lines 98-108) *)

Definition section_name_of (category : str) : str :=
  if bool_decide (category = "sysmodules") then "Versions"
  else if bool_decide (category = "overlays") then "Versions"
  else if bool_decide (category = "apps") then "Versions"
  else if bool_decide (category = "emulatoren") then "Versions"
  else "Release Info".

(** ** Config reader: [parse_ini_file] *)

Record entry := Entry { name : str; owner : str; repo : str; url : str }.

(** The header pattern [^\[([^\]]+)\]] under [re.MULTILINE], at one
    position: the section name (group 1), the text after the match
    ([content[section_match.end():]]) and the length of the match.  The
    class [[^\]]] also matches newlines; the greedy run ends at the first
    [']'] and cannot usefully be shortened. *)
Definition not_rbracket (c : ascii) : bool := negb (Ascii.eqb c "]").

Definition match_header (bol : bool) (s : str) : option ((str * str) * nat) :=
  if bol then
    s1 ← Py.strip_prefix "[" s;
    let '(section_name, s2) := Py.span not_rbracket s1 in
    if bool_decide (section_name = []) then None else
    s3 ← Py.strip_prefix "]" s2;
    Some ((section_name, s3), length section_name + 2)%nat
  else None.

(** The pattern [^\[] under [re.MULTILINE], at one position. *)
Definition match_line_bracket (bol : bool) (s : str) : bool :=
  bol && Py.startswith "[" s.

(** [content[section_start:section_end]] (lines 70-72).  The search runs on
    the slice, so its position 0 counts as a beginning of line. *)
Definition section_content_of (rest : str) : str :=
  let next_section := Py.re_search_start match_line_bracket true rest in
  let section_end := match next_section with Some i => i | None => length rest end in
  take section_end rest.

(** The pattern [https://api\.github\.com/repos/[^\s]+] at one position:
    the matched text and its length. *)
Definition not_space (c : ascii) : bool := negb (Py.isspace c).

Definition match_github_url (_ : bool) (s : str) : option (str * nat) :=
  s1 ← Py.strip_prefix "https://api.github.com/repos/" s;
  let tail := (Py.span not_space s1).1 in
  if bool_decide (tail = []) then None
  else Some ("https://api.github.com/repos/" ++ tail, 29 + length tail)%nat.

(** One iteration of the loop of [parse_ini_file] (lines 66-85), for a
    section name and its content: the entry it appends, if any. *)
Definition entry_of_section (section : str * str) : option entry :=
  let '(section_name, section_content) := section in
  let github_urls := Py.re_finditer match_github_url section_content in
  match github_urls with
  | [] => None
  | url0 :: _ =>
      match extract_repo_from_url url0 with
      | Some repo_info =>
          Some {| name := section_name; owner := repo_info.1; repo := repo_info.2;
                  url := url0 |}
      | None => None
      end
  end.

(** The sections the loop visits, in file order: name and content. *)
Definition sections (content : str) : list (str * str) :=
  (λ m : str * str, (m.1, section_content_of m.2)) <$> Py.re_finditer match_header content.

(** The body of [parse_ini_file] after [content = f.read()] (lines 57-87). *)
Definition parse_ini_text (content : str) : list entry :=
  foldl (λ entries section,
           match entry_of_section section with
           | Some e => entries ++ [e]
           | None => entries
           end) [] (sections content).

(** ** The outside world: files, remote API, exceptions *)

(** What one request to the release API comes back with.  The body follows
    the API contract: a JSON array of release objects whose fields are
    strings.  [OtherError] stands for every failure that is not an
    [HTTPError]: transport errors, time-outs, undecodable or unparsable
    bodies. *)
Inductive response :=
  | HTTPError (code : Z) (reason : str)
  | OtherError (message : str)
  | Releases (releases : list (gmap str str)).

(** The lines [get_latest_tag] prints on its failure paths. *)
Inductive diagnostic :=
  | RateLimitExceeded
  | RepositoryNotFound
  | HttpStatus (code : Z) (reason : str)
  | ErrorMessage (message : str).

Record world := World {
  files : gmap str str;        (* text files of the include directory, by relative path *)
  written : list str;          (* paths opened for writing, oldest first *)
  requests : nat;              (* requests sent so far *)
  sleeps : nat;                (* 500 ms pauses taken so far *)
  console : list diagnostic;   (* diagnostics printed so far *)
}.

Definition set_files (f : gmap str str → gmap str str) (w : world) : world :=
  World (f (files w)) (written w) (requests w) (sleeps w) (console w).
Definition set_written (f : list str → list str) (w : world) : world :=
  World (files w) (f (written w)) (requests w) (sleeps w) (console w).
Definition set_requests (f : nat → nat) (w : world) : world :=
  World (files w) (written w) (f (requests w)) (sleeps w) (console w).
Definition set_sleeps (f : nat → nat) (w : world) : world :=
  World (files w) (written w) (requests w) (f (sleeps w)) (console w).
Definition set_console (f : list diagnostic → list diagnostic) (w : world) : world :=
  World (files w) (written w) (requests w) (sleeps w) (f (console w)).

(** The exceptions that can leave the functions of the script. *)
Inductive exn :=
  | ValueError
  | NoSectionError
  | DuplicateSectionError
  | DuplicateOptionError
  | MissingSectionHeaderError
  | ParsingError
  | FileNotFoundError.

(** A pure computation that may raise. *)
Inductive result (A : Type) :=
  | Ok (a : A)
  | Err (e : exn).
Arguments Ok {A} a.
Arguments Err {A} e.

#[global] Instance result_ret : MRet result := λ A a, Ok a.
#[global] Instance result_bind : MBind result := λ A B f r,
  match r with Ok a => f a | Err e => Err e end.

(** A run of a piece of the script: it returns a value or raises, and
    leaves a world behind either way. *)
Inductive outcome (A : Type) :=
  | Returned (a : A) (w : world)
  | Raised (e : exn) (w : world).
Arguments Returned {A} a w.
Arguments Raised {A} e w.

Definition M (A : Type) : Type := world → outcome A.

#[global] Instance M_ret : MRet M := λ A a w, Returned a w.
#[global] Instance M_bind : MBind M := λ A B f m w,
  match m w with
  | Returned a w' => f a w'
  | Raised e w' => Raised e w'
  end.

Definition raise {A} (e : exn) : M A := λ w, Raised e w.
Definition lift {A} (r : result A) : M A :=
  match r with Ok a => mret a | Err e => raise e end.
Definition modify (f : world → world) : M unit := λ w, Returned () (f w).
Definition gets {A} (f : world → A) : M A := λ w, Returned (f w) w.

(** Text-mode reads translate ["\r\n"] and ["\r"] to ["\n"]. *)
Definition CR : ascii := "013"%char.

Fixpoint universal_newlines (s : str) : str :=
  match s with
  | [] => []
  | c :: s' =>
      if Ascii.eqb c CR then
        match s' with
        | c2 :: s'' =>
            if Ascii.eqb c2 Py.LF then Py.LF :: universal_newlines s''
            else Py.LF :: universal_newlines s'
        | [] => [Py.LF]
        end
      else c :: universal_newlines s'
  end.

(** [Path.exists()]. *)
Definition path_exists (path : str) : M bool := gets (λ w, bool_decide (is_Some (files w !! path))).

(** [open(path, 'r', encoding='utf-8').read()]. *)
Definition read_text (path : str) : M str := λ w,
  match files w !! path with
  | Some raw => Returned (universal_newlines raw) w
  | None => Raised FileNotFoundError w
  end.

(** [open(path, 'w', encoding='utf-8')] followed by writing [text]: the
    file is truncated on opening and holds [text] afterwards. *)
Definition write_text (path text : str) : M unit :=
  modify (λ w, set_written (λ l, l ++ [path]) (set_files (insert path text) w)).

(** [time.sleep(0.5)]. *)
Definition sleep_500ms : M unit := modify (set_sleeps S).

Definition print_diagnostic (d : diagnostic) : M unit := modify (set_console (λ l, l ++ [d])).

(** [parse_ini_file(file_path)] (lines 55-87). *)
Definition parse_ini_file (file_path : str) : M (list entry) :=
  content ← read_text file_path;
  mret (parse_ini_text content).

(** ** [configparser.ConfigParser], as the script uses it

    A parser object created by [ConfigParser()] with the default settings
    (delimiters [=] and [:], comment prefixes [#] and [;], no inline
    comments, strict, empty lines in values, basic interpolation) and
    [optionxform = str]. *)

Module ConfigParser.

(** An insertion-ordered [dict] with [str] keys. *)
Definition dict (V : Type) : Type := list (str * V).

Fixpoint dict_set {V} (k : str) (v : V) (d : dict V) : dict V :=
  match d with
  | [] => [(k, v)]
  | (k', v') :: d' =>
      if bool_decide (k' = k) then (k', v) :: d' else (k', v') :: dict_set k v d'
  end.

Fixpoint dict_get {V} (k : str) (d : dict V) : option V :=
  match d with
  | [] => None
  | (k', v') :: d' => if bool_decide (k' = k) then Some v' else dict_get k d'
  end.

Definition keys {V} (d : dict V) : list str := d.*1.

Record t := Config {
  _defaults : dict str;
  _sections : dict (dict str);
}.

(** [ConfigParser()]. *)
Definition new : t := Config [] [].

Definition default_section : str := "DEFAULT".

(** [config.add_section(section)]. *)
Definition add_section (section : str) (c : t) : result t :=
  if bool_decide (section = default_section) then Err ValueError
  else if bool_decide (section ∈ keys (_sections c)) then Err DuplicateSectionError
  else Ok (Config (_defaults c) (_sections c ++ [(section, [])])).

(** [value.replace('%%', '')]. *)
Fixpoint remove_escaped_percent (s : str) : str :=
  match s with
  | [] => []
  | c :: s' =>
      match s' with
      | c2 :: s'' =>
          if Ascii.eqb c "%" && Ascii.eqb c2 "%" then remove_escaped_percent s''
          else c :: remove_escaped_percent s'
      | [] => [c]
      end
  end.

(** [_KEYCRE = %\(([^)]+)\)s] at one position: the length of the match. *)
Definition not_rparen (c : ascii) : bool := negb (Ascii.eqb c ")").

Definition match_key (s : str) : option nat :=
  s1 ← Py.strip_prefix "%(" s;
  let '(key, s2) := Py.span not_rparen s1 in
  if bool_decide (key = []) then None else
  _ ← Py.strip_prefix ")s" s2;
  Some (length key + 4)%nat.

(** [_KEYCRE.sub('', s)]. *)
Fixpoint remove_keys_from (skip : nat) (s : str) : str :=
  match s with
  | [] => []
  | c :: s' =>
      match skip with
      | S k => remove_keys_from k s'
      | O =>
          match match_key s with
          | Some n => remove_keys_from (n - 1) s'
          | None => c :: remove_keys_from 0 s'
          end
      end
  end.

(** [BasicInterpolation.before_set]: the value is refused when a ['%']
    remains once the escaped percent signs and the [%(key)s] references are
    taken out. *)
Definition valid_interpolation_syntax (value : str) : bool :=
  negb (Py.contains "%" (remove_keys_from 0 (remove_escaped_percent value))).

(** [config.set(section, option, value)] for [str] arguments. *)
Definition set (section option value : str) (c : t) : result t :=
  if negb (bool_decide (value = [])) && negb (valid_interpolation_syntax value)
  then Err ValueError
  else if bool_decide (section = []) || bool_decide (section = default_section)
  then Ok (Config (dict_set option value (_defaults c)) (_sections c))
  else match dict_get section (_sections c) with
       | None => Err NoSectionError
       | Some sectdict =>
           Ok (Config (_defaults c) (dict_set section (dict_set option value sectdict) (_sections c)))
       end.

(** [value.replace('\n', '\n\t')]. *)
Definition indent_continuations (value : str) : str :=
  flat_map (λ c, if Ascii.eqb c Py.LF then [Py.LF; "009"%char] else [c]) value.

(** [_write_section] with the delimiter ["="]. *)
Definition write_section (section_name : str) (items : dict str) : str :=
  "[" ++ section_name ++ "]" ++ [Py.LF]
  ++ flat_map (λ kv : str * str, kv.1 ++ "=" ++ indent_continuations kv.2 ++ [Py.LF]) items
  ++ [Py.LF].

(** [config.write(f, space_around_delimiters=False)]: the text written. *)
Definition write (c : t) : str :=
  (if bool_decide (_defaults c = []) then [] else write_section default_section (_defaults c))
  ++ flat_map (λ s : str * dict str, write_section s.1 s.2) (_sections c).

(** *** Reading *)

(** Iterating over a text stream: the lines with their terminators. *)
Fixpoint lines_of (s : str) : list str :=
  match s with
  | [] => []
  | c :: s' =>
      if Ascii.eqb c Py.LF then [Py.LF] :: lines_of s'
      else match lines_of s' with
           | l :: ls => (c :: l) :: ls
           | [] => [[c]]
           end
  end.

(** [SECTCRE.match(value)], the pattern [\[(?P<header>.+)\]]: the greedy
    [.+] runs to the last [']'] of the line. *)
Definition match_section (value : str) : option str :=
  s1 ← Py.strip_prefix "[" value;
  match (Py.span not_rbracket (reverse s1)).2 with
  | [] => None
  | _ :: header_rev => if bool_decide (header_rev = []) then None else Some (reverse header_rev)
  end.

(** [OPTCRE.match(value)] on a line without newline.  The pattern is a lazy
    [option] group, optional whitespace, a delimiter [=] or [:], optional
    whitespace and the [value] group up to the end of the line: the option
    group ends before the whitespace that precedes the first delimiter.
    The groups [option] and [value]. *)
Definition not_delimiter (c : ascii) : bool := negb (Ascii.eqb c "=" || Ascii.eqb c ":").

Definition match_option (value : str) : option (str * str) :=
  let '(before, rest) := Py.span not_delimiter value in
  match rest with
  | [] => None
  | _ :: after => Some (Py.rstrip before, Py.lstrip after)
  end.

(** The local variables of [_read] together with the parser's tables.
    Values are lists of lines until they are joined.  [cursect] is [None]
    exactly while [sectname] is, and otherwise the table named by
    [sectname]. *)
Record reader := Reader {
  r_defaults : dict (list str);
  r_sections : dict (dict (list str));
  elements_added : list (str + str * str);
  sectname : option str;
  optname : option str;
  indent_level : nat;
  e : bool;
}.

Definition cursect (r : reader) : option (dict (list str)) :=
  s ← sectname r;
  if bool_decide (s = default_section) then Some (r_defaults r) else dict_get s (r_sections r).

Definition set_cursect (d : dict (list str)) (r : reader) : reader :=
  match sectname r with
  | None => r
  | Some s =>
      if bool_decide (s = default_section)
      then Reader d (r_sections r) (elements_added r) (sectname r) (optname r)
                  (indent_level r) (e r)
      else Reader (r_defaults r) (dict_set s d (r_sections r)) (elements_added r) (sectname r)
                  (optname r) (indent_level r) (e r)
  end.

(** [cursect[optname].append(value)]. *)
Definition append_to_option (value : str) (r : reader) : reader :=
  match cursect r, optname r with
  | Some d, Some o =>
      match dict_get o d with
      | Some lines => set_cursect (dict_set o (lines ++ [value]) d) r
      | None => r
      end
  | _, _ => r
  end.

(** One iteration of the loop of [_read]. *)
Definition read_line (line : str) (r : reader) : result reader :=
  let stripped := Py.strip line in
  let is_comment := Py.startswith "#" stripped || Py.startswith ";" stripped in
  let value := if is_comment then [] else stripped in
  if bool_decide (value = []) then
    if negb is_comment && bool_decide (is_Some (cursect r)) && Py.truthy (optname r)
    then Ok (append_to_option [] r)
    else Ok r
  else
    let cur_indent_level := length (Py.span Py.isspace line).1 in
    if bool_decide (is_Some (cursect r)) && Py.truthy (optname r)
       && (indent_level r <? cur_indent_level)%nat
    then Ok (append_to_option value r)
    else
      match match_section value with
      | Some name =>
          if bool_decide (name ∈ keys (r_sections r)) then
            if bool_decide (inl name ∈ elements_added r) then Err DuplicateSectionError
            else Ok (Reader (r_defaults r) (r_sections r) (inl name :: elements_added r)
                            (Some name) None cur_indent_level (e r))
          else if bool_decide (name = default_section) then
            Ok (Reader (r_defaults r) (r_sections r) (elements_added r)
                       (Some name) None cur_indent_level (e r))
          else
            Ok (Reader (r_defaults r) (r_sections r ++ [(name, [])])
                       (inl name :: elements_added r) (Some name) None cur_indent_level (e r))
      | None =>
          match sectname r, cursect r with
          | Some sect, Some d =>
              match match_option value with
              | Some (opt, optval) =>
                  let e' := e r || bool_decide (opt = []) in
                  let opt' := Py.rstrip opt in
                  if bool_decide (inr (sect, opt') ∈ elements_added r)
                  then Err DuplicateOptionError
                  else Ok (set_cursect (dict_set opt' [Py.strip optval] d)
                             (Reader (r_defaults r) (r_sections r)
                                     (inr (sect, opt') :: elements_added r)
                                     (sectname r) (Some opt') cur_indent_level e'))
              | None =>
                  Ok (Reader (r_defaults r) (r_sections r) (elements_added r)
                             (sectname r) (optname r) cur_indent_level true)
              end
          | _, _ => Err MissingSectionHeaderError
          end
      end.

Fixpoint read_lines (lines : list str) (r : reader) : result reader :=
  match lines with
  | [] => Ok r
  | line :: lines' => r' ← read_line line r; read_lines lines' r'
  end.

(** ['\n'.join(val).rstrip()]. *)
Fixpoint join_lines (val : list str) : str :=
  match val with
  | [] => []
  | [l] => l
  | l :: val' => l ++ [Py.LF] ++ join_lines val'
  end.

Definition join_multiline_values (d : dict (list str)) : dict str :=
  (λ kv : str * list str, (kv.1, Py.rstrip (join_lines kv.2))) <$> d.

(** [config.read_string(text)] on a fresh parser. *)
Definition read_string (text : str) : result t :=
  r ← read_lines (lines_of text) (Reader [] [] [] None None 0 false);
  if e r then Err ParsingError
  else Ok (Config (join_multiline_values (r_defaults r))
                  ((λ s : str * dict (list str), (s.1, join_multiline_values s.2))
                     <$> r_sections r)).

End ConfigParser.

(** [config.read(path)] on a fresh parser, for a path that exists. *)
Definition config_read (path : str) : M ConfigParser.t :=
  text ← read_text path;
  lift (ConfigParser.read_string text).

(** ** Release fetcher: [get_latest_tag] *)

Definition GITHUB_API : str := "https://api.github.com/repos".

(** The URL [get_latest_tag] requests. *)
Definition releases_url (owner repo : str) : str :=
  GITHUB_API ++ "/" ++ owner ++ "/" ++ repo ++ "/releases?per_page=1".

(** The local variables of the loop (lines 95 and 113-115). *)
Record loop_state := LoopState {
  config : ConfigParser.t;
  success_count : nat;
  failure_count : nat;
  failed_entries : list str;
}.

(** The dictionary [generate_release_ini] returns. *)
Record category_result := CategoryResult {
  category : str;
  total : nat;
  success : nat;
  failed : nat;
  result_failed_entries : list str;
}.

Section fetcher.
(** The remote API: the answer to the [n]-th request of the run, sent to
    the given URL.  The request headers (user agent, optional token) do
    not enter the model; the answer is arbitrary. *)
Variable remote : nat → str → response.

Definition get_latest_tag (owner repo : str) : M (option str) :=
  let url := releases_url owner repo in
  n ← gets requests;
  modify (set_requests S);;
  match remote n url with
  | Releases releases =>
      match releases with
      | first :: _ =>
          mret (Some (default (default ("" : str) (first !! ("name" : str)))
                              (first !! ("tag_name" : str))))
      | [] => mret None
      end
  | HTTPError code reason =>
      (if bool_decide (code = 403%Z) then print_diagnostic RateLimitExceeded
       else if bool_decide (code = 404%Z) then print_diagnostic RepositoryNotFound
       else print_diagnostic (HttpStatus code reason));;
      mret None
  | OtherError e =>
      print_diagnostic (ErrorMessage e);;
      mret None
  end.

(** ** Per-category processing: [generate_release_ini] *)

(** The line recorded for a failed entry: [name (owner/repo)]. *)
Definition failed_entry_line (entry : entry) : str :=
  name entry ++ " (" ++ owner entry ++ "/" ++ repo entry ++ ")".

(** The body of the [for] loop (lines 118-146), for the entry at index [i]. *)
Definition loop_body (section_name : str) (i : nat) (entry : entry) (st : loop_state)
    : M loop_state :=
  (if (0 <? i)%nat then sleep_500ms else mret ());;
  tag ← get_latest_tag (owner entry) (repo entry);
  if Py.truthy tag then
    let clean_tag := clean_tag_of (default [] tag) in
    cfg ← lift (ConfigParser.set section_name (name entry) clean_tag (config st));
    mret (LoopState cfg (S (success_count st)) (failure_count st) (failed_entries st))
  else
    mret (LoopState (config st) (success_count st) (S (failure_count st))
                    (failed_entries st ++ [failed_entry_line entry])).

Fixpoint for_entries (section_name : str) (i : nat) (entries : list entry) (st : loop_state)
    : M loop_state :=
  match entries with
  | [] => mret st
  | entry :: entries' =>
      st' ← loop_body section_name i entry st;
      for_entries section_name (S i) entries' st'
  end.

Definition generate_release_ini (category : str) (entries : list entry) (output_path : str)
    : M category_result :=
  let section_name := section_name_of category in
  cfg ← lift (ConfigParser.add_section section_name ConfigParser.new);
  st ← for_entries section_name 0 entries (LoopState cfg 0 0 []);
  write_text output_path (ConfigParser.write (config st));;
  mret (CategoryResult category (length entries) (success_count st) (failure_count st)
                       (failed_entries st)).

(** ** Driver: [main] *)

(** One of the four blocks of [main] (lines 183-217): the category, its
    directory under the include path, its input and output file names. *)
Definition category_job (category dir input output : str)
    (all_results : list category_result) : M (list category_result) :=
  let input_path := dir ++ "/" ++ input in
  present ← path_exists input_path;
  if present : bool then
    entries ← parse_ini_file input_path;
    if bool_decide (entries = []) then mret all_results
    else
      res ← generate_release_ini category entries (dir ++ "/" ++ output);
      mret (all_results ++ [res])
  else mret all_results.

(** [main], returning [all_results] as it stands when the summary is
    printed. *)
Definition main : M (list category_result) :=
  all_results ← category_job "sysmodules" "sysmodules" "sysmodules.ini" "RELEASE_SM.ini" [];
  all_results ← category_job "overlays" "overlays" "overlays.ini" "RELEASE_OV.ini" all_results;
  all_results ← category_job "apps" "apps" "apps.ini" "RELEASE_APPS.ini" all_results;
  all_results ← category_job "emulatoren" "emulatoren" "emulatoren.ini" "RELEASE_EM.ini"
                  all_results;
  mret all_results.

End fetcher.

(** * Specification vocabulary *)

(** The category names the driver passes to [generate_release_ini]. *)
Definition known_categories : list str :=
  ["sysmodules" : str; "overlays" : str; "apps" : str; "emulatoren" : str].

(** A path component: a non-empty run of characters other than ['/']. *)
Definition segment (x : str) : Prop := x ≠ [] ∧ Forall (λ c, c ≠ "/"%char) x.

(** The shape [<pre>/repos/<o>/<r>/releases<post>]. *)
Definition release_url (pre o r post : str) : str :=
  pre ++ "/repos/" ++ o ++ "/" ++ r ++ "/releases" ++ post.

(** A text contains a match of [https://api\.github\.com/repos/[^\s]+]: the
    literal prefix followed by at least one non-whitespace character. *)
Definition has_release_url (body : str) : Prop :=
  ∃ pre c post, Py.isspace c = false
                ∧ body = pre ++ "https://api.github.com/repos/" ++ c :: post.

(** A request failed: an HTTP error status or any other exception. *)
Definition fetch_fails (resp : response) : Prop :=
  (∃ code reason, resp = HTTPError code reason) ∨ (∃ message, resp = OtherError message).

(** The value [get_latest_tag] returns for an answer of the remote API. *)
Definition latest_tag (resp : response) : option str :=
  match resp with
  | Releases (first :: _) =>
      Some (default (default ("" : str) (first !! ("name" : str))) (first !! ("tag_name" : str)))
  | _ => None
  end.

(** The diagnostics [get_latest_tag] prints for an answer. *)
Definition diagnostics_of (resp : response) : list diagnostic :=
  match resp with
  | HTTPError code reason =>
      if bool_decide (code = 403%Z) then [RateLimitExceeded]
      else if bool_decide (code = 404%Z) then [RepositoryNotFound]
      else [HttpStatus code reason]
  | OtherError message => [ErrorMessage message]
  | Releases _ => []
  end.

(** The answers a category's loop receives: each entry with the tag fetched
    for it, the first request of the loop being request number [n]. *)
Fixpoint fetched (remote : nat → str → response) (n : nat) (entries : list entry)
    : list (entry * option str) :=
  match entries with
  | [] => []
  | e :: entries' =>
      (e, latest_tag (remote n (releases_url (owner e) (repo e))))
        :: fetched remote (S n) entries'
  end.

Definition succeeded (r : entry * option str) : Prop := Py.truthy r.2 = true.

Definition successes (l : list (entry * option str)) : list (entry * option str) :=
  filter succeeded l.
Definition failures (l : list (entry * option str)) : list (entry * option str) :=
  filter (λ r, ¬ succeeded r) l.

(** The version stored for a successful entry. *)
Definition version_of (r : entry * option str) : str := clean_tag_of (default [] r.2).

(** The options of the manifest section once the successes are stored, in
    the order of their first appearance. *)
Definition manifest_items (l : list (entry * option str)) (items : ConfigParser.dict str)
    : ConfigParser.dict str :=
  foldl (λ d r, ConfigParser.dict_set (name r.1) (version_of r) d) items (successes l).

(** [config.set] takes the value: it is empty or has valid interpolation
    syntax. *)
Definition set_accepts (value : str) : bool :=
  bool_decide (value = []) || ConfigParser.valid_interpolation_syntax value.

(** Every successful entry's version is one [config.set] takes. *)
Definition all_accepted (l : list (entry * option str)) : Prop :=
  Forall (λ r, set_accepts (version_of r) = true) (successes l).

(** A header the script can write: neither empty nor the default section. *)
Definition ordinary_section (section_name : str) : Prop :=
  section_name ≠ [] ∧ section_name ≠ ConfigParser.default_section.

(** The text of the manifest for the answers [l]. *)
Definition manifest_text (category : str) (l : list (entry * option str)) : str :=
  ConfigParser.write (ConfigParser.Config [] [(section_name_of category, manifest_items l [])]).

(** What a step leaves untouched or advances in the world. *)
Definition fetched_once (w w' : world) : Prop :=
  files w' = files w ∧ written w' = written w ∧ requests w' = S (requests w).

(** Writing a parser object to a file and reading the file back into a
    fresh parser. *)
Definition round_trip (path : str) (cfg : ConfigParser.t) : M ConfigParser.t :=
  write_text path (ConfigParser.write cfg);;
  config_read path.

(** A string without leading or trailing whitespace. *)
Definition trimmed (s : str) : bool :=
  match s with [] => true | c :: _ => negb (Py.isspace c) end
  && match last s with Some c => negb (Py.isspace c) | None => true end.

(** A key the INI syntax reads back as it was written: not empty, no
    delimiter and no line break inside, no whitespace at either end, and
    not starting like a comment or a section header. *)
Definition plain_key (k : str) : bool :=
  forallb (λ c, negb (Py.contains c ["="%char; ":"%char; Py.LF; CR])) k
  && trimmed k
  && match k with
     | [] => false
     | c :: _ => negb (Py.contains c ["#"%char; ";"%char; "["%char])
     end.

(** A value the INI syntax reads back as it was written: no line break
    inside and no whitespace at either end. *)
Definition plain_value (v : str) : bool :=
  forallb (λ c, negb (Py.contains c [Py.LF; CR])) v && trimmed v.

(** A mapping the INI syntax reads back as written: distinct plain keys
    with plain values. *)
Definition plain_items (items : ConfigParser.dict str) : Prop :=
  NoDup (ConfigParser.keys items)
  ∧ Forall (λ kv : str * str, plain_key kv.1 = true ∧ plain_value kv.2 = true) items.

(** A line of the manifest, as written. *)
Definition option_line (kv : str * str) : str := kv.1 ++ "="%char :: kv.2 ++ [Py.LF].

(** The reader of [_read] once the header of [section_name] and the lines
    of the options [seen] have been read. *)
Definition reading (section_name : str) (seen : ConfigParser.dict str) : ConfigParser.reader :=
  ConfigParser.Reader []
    [(section_name, (λ kv : str * str, (kv.1, [kv.2])) <$> seen)]
    (((λ kv : str * str, inr (section_name, kv.1)) <$> reverse seen) ++ [inl section_name])
    (Some section_name) (fst <$> last seen) 0 false.

(** ** Sample data *)

Definition sample_ini : str :=
  "; catalogue" ++ [Py.LF] ++
  "[MyModule]" ++ [Py.LF] ++
  "url=https://api.github.com/repos/foo/bar/releases?per_page=1" ++ [Py.LF] ++
  "[Notes]" ++ [Py.LF] ++
  "text=nothing to fetch here" ++ [Py.LF] ++
  "[Other]" ++ [Py.LF] ++
  "url=https://api.github.com/repos/baz/qux/releases" ++ [Py.LF].

Definition sample_world : world :=
  World {[ ("sysmodules/sysmodules.ini" : str) := sample_ini ]} [] 0 0 [].

Definition sample_entry : entry :=
  Entry "Other" "baz" "qux" "https://api.github.com/repos/baz/qux/releases".

(** A remote API that answers every request with 404. *)
Definition remote_404 : nat → str → response := λ _ _, HTTPError 404 "Not Found".

(** A remote API whose release objects carry neither [tag_name] nor [name]. *)
Definition remote_bare : nat → str → response := λ _ _, Releases [∅].

(** A remote API whose latest tag everywhere is the given one. *)
Definition remote_tag (tag : str) : nat → str → response :=
  λ _ _, Releases [ {[ ("tag_name" : str) := tag ]} ].

(** The loop state on entry to the loop. *)
Definition initial_state (section_name : str) : loop_state :=
  LoopState (ConfigParser.Config [] [(section_name, [])]) 0 0 [].

(** ** Further specification vocabulary *)

(** A part of a dash-separated tag: no ['-'] inside. *)
Definition dash_free (s : str) : Prop := Forall (λ c, c ≠ "-"%char) s.

(** A text in which no line begins with a left bracket. *)
Definition no_bracket_line (body : str) : Prop :=
  head body ≠ Some "["%char
  ∧ ∀ pre post, body ≠ pre ++ Py.LF :: "["%char :: post.

(** The literal prefix of the release-API URL pattern. *)
Definition api_prefix : str := "https://api.github.com/repos/".

(** A remote API whose releases carry a [name] but no [tag_name]. *)
Definition remote_name_only (n : str) : nat → str → response :=
  λ _ _, Releases [ {[ ("name" : str) := n ]} ].

(** A remote API that knows of no release. *)
Definition remote_empty : nat → str → response := λ _ _, Releases [].

(** The world a run leaves behind, whether it returned or raised. *)
Definition world_of {A} (out : outcome A) : world :=
  match out with Returned _ w => w | Raised _ w => w end.

(** The successful answers stored under a given name. *)
Definition stored_under (k : str) (l : list (entry * option str)) : list (entry * option str) :=
  filter (λ r, name r.1 = k) (successes l).

(** The totals of the final summary (lines 223-225). *)
Definition total_entries (all_results : list category_result) : nat :=
  sum_list_with total all_results.
Definition total_success (all_results : list category_result) : nat :=
  sum_list_with success all_results.
Definition total_failed (all_results : list category_result) : nat :=
  sum_list_with failed all_results.

(** A category result whose counters agree with each other. *)
Definition consistent_result (res : category_result) : Prop :=
  (0 < total res)%nat
  ∧ (success res + failed res = total res)%nat
  ∧ length (result_failed_entries res) = failed res.

(** The four blocks of [main] as data: category, directory, input file
    name and output file name. *)
Definition category_jobs : list (str * str * str * str) :=
  [ ("sysmodules" : str, "sysmodules" : str, "sysmodules.ini" : str, "RELEASE_SM.ini" : str);
    ("overlays" : str, "overlays" : str, "overlays.ini" : str, "RELEASE_OV.ini" : str);
    ("apps" : str, "apps" : str, "apps.ini" : str, "RELEASE_APPS.ini" : str);
    ("emulatoren" : str, "emulatoren" : str, "emulatoren.ini" : str, "RELEASE_EM.ini" : str) ].

Definition job_category (j : str * str * str * str) : str := j.1.1.1.
Definition job_input_path (j : str * str * str * str) : str := j.1.1.2 ++ "/" ++ j.1.2.
Definition job_output_path (j : str * str * str * str) : str := j.1.1.2 ++ "/" ++ j.2.

(** The paths [main] reads and the paths it may write. *)
Definition input_paths : list str := job_input_path <$> category_jobs.
Definition output_paths : list str := job_output_path <$> category_jobs.

(** A sequence of category blocks run one after the other, each handing
    [all_results] to the next. *)
Fixpoint run_jobs (remote : nat → str → response) (jobs : list (str * str * str * str))
    (all_results : list category_result) : M (list category_result) :=
  match jobs with
  | [] => mret all_results
  | j :: jobs' =>
      all_results' ← category_job remote j.1.1.1 j.1.1.2 j.1.2 j.2 all_results;
      run_jobs remote jobs' all_results'
  end.

(** A world whose only file is an input file without any URL. *)
Definition notes_world : world :=
  World {[ ("apps/apps.ini" : str) := ("[Notes]" : str) ]} [] 0 0 [].


(** ** Sections of an input file *)

(** An offset is at the beginning of a line: nothing precedes it, or the
    character before it is a newline. *)
Definition line_start (pre : str) : Prop := pre = [] ∨ last pre = Some Py.LF.

(** A section header at offset [p] of a text, as the header pattern of
    [parse_ini_file] takes it: a left bracket at the beginning of a line, a
    non-empty name free of right brackets, a right bracket.  [rest] is the
    text after the right bracket. *)
Definition header_at (content : str) (p : nat) (section_name rest : str) : Prop :=
  ∃ pre, content = pre ++ "["%char :: section_name ++ "]"%char :: rest
         ∧ length pre = p
         ∧ line_start pre
         ∧ section_name ≠ []
         ∧ Forall (λ c, c ≠ "]"%char) section_name.

(** No header that starts before offset [p] reaches over it: the offset
    does not lie inside the name of an earlier header. *)
Definition unshadowed (content : str) (p : nat) : Prop :=
  ∀ p' section_name rest,
    header_at content p' section_name rest → (p' < p)%nat →
    (p' + length section_name + 2 ≤ p)%nat.

(** The body of a section whose header is followed by [rest]: the text up
    to the first line of [rest] that begins with a left bracket (the
    beginning of [rest] counts as the beginning of a line), or all of
    [rest] when there is no such line. *)
Definition body_of (rest body : str) : Prop :=
  no_bracket_line body
  ∧ (body = rest ∨ ∃ post, rest = body ++ "["%char :: post ∧ line_start body).

(** A section of a text: the offset of its header, its name and its body. *)
Definition section_at (content : str) (p : nat) (section_name body : str) : Prop :=
  ∃ rest, header_at content p section_name rest
          ∧ unshadowed content p
          ∧ body_of rest body.

(** A list of items with their offsets in a file is in the order of the
    file: a later item has a larger offset. *)
Definition in_file_order {A} (l : list (nat * A)) : Prop :=
  ∀ i j a b, (i < j)%nat → l !! i = Some a → l !! j = Some b → (a.1 < b.1)%nat.

(** *** The sections as the specification words them

    A section header line is a line whose trimmed form is a name between
    brackets; the body of a section is all the following text up to the
    next section header line or the end of the file. *)
Definition spec_header_name (line : str) : option str :=
  s1 ← Py.strip_prefix "[" (Py.strip line);
  match reverse s1 with
  | c :: rname =>
      if Ascii.eqb c "]" && negb (bool_decide (rname = [])) then Some (reverse rname) else None
  | [] => None
  end.

Fixpoint spec_body (lines : list str) : str :=
  match lines with
  | [] => []
  | line :: lines' =>
      match spec_header_name line, lines' with
      | Some _, _ => []
      | None, [] => line
      | None, _ :: _ => line ++ Py.LF :: spec_body lines'
      end
  end.

Fixpoint spec_sections_of (lines : list str) : list (str * str) :=
  match lines with
  | [] => []
  | line :: lines' =>
      match spec_header_name line with
      | Some section_name => (section_name, spec_body lines') :: spec_sections_of lines'
      | None => spec_sections_of lines'
      end
  end.

Definition spec_sections (content : str) : list (str * str) :=
  spec_sections_of (Py.split Py.LF content).

(** An input file whose second header is indented. *)
Definition indented_ini : str :=
  "[A]" ++ [Py.LF] ++
  "  [B]" ++ [Py.LF] ++
  "url=https://api.github.com/repos/o/r/releases" ++ [Py.LF].

Definition indented_world : world :=
  World {[ ("apps/apps.ini" : str) := indented_ini ]} [] 0 0 [].

(** ** The text of a one-section manifest *)

(** * Properties *)

(** ** String primitives *)

Section py_lemmas.
Import Py.

Lemma span_app_eq p s : (span p s).1 ++ (span p s).2 = s.
Proof.
  induction s as [|c s IH]; simpl; [done|].
  destruct (p c); [|done]. destruct (span p s). simpl in *. by f_equal.
Qed.

Lemma span_fst_Forall p s : Forall (λ c, p c = true) (span p s).1.
Proof.
  induction s as [|c s IH]; simpl; [constructor|].
  destruct (p c) eqn:Hc; [|constructor].
  destruct (span p s). simpl in *. by constructor.
Qed.

Lemma span_snd_head p s : match (span p s).2 with [] => True | c :: _ => p c = false end.
Proof.
  induction s as [|c s IH]; simpl; [done|].
  destruct (p c) eqn:Hc; [|done]. by destruct (span p s).
Qed.

(** A run of [p]-characters followed by the end or by a non-[p] character
    is exactly what [span] cuts off. *)
Lemma span_run p a b :
  Forall (λ c, p c = true) a →
  match b with [] => True | c :: _ => p c = false end →
  span p (a ++ b) = (a, b).
Proof.
  intros Ha Hb. induction Ha as [|c a Hc _ IH]; simpl.
  - destruct b as [|c b]; simpl; [done|]. by rewrite Hb.
  - by rewrite Hc, IH.
Qed.

Lemma span_false_head p c s : p c = false → span p (c :: s) = ([], c :: s).
Proof. intros H. simpl. by rewrite H. Qed.

Lemma strip_prefix_app p s : strip_prefix p (p ++ s) = Some s.
Proof. induction p as [|a p IH]; simpl; [done|]. by rewrite Ascii.eqb_refl. Qed.

Lemma strip_prefix_Some p s r : strip_prefix p s = Some r → s = p ++ r.
Proof.
  revert s. induction p as [|a p IH]; intros [|b s]; simpl; try congruence.
  destruct (Ascii.eqb_spec a b) as [->|]; [|done].
  intros H. by rewrite (IH _ H).
Qed.

Lemma re_search_None {A} (m : str → option A) s :
  (∀ s1 s2, s = s1 ++ s2 → m s2 = None) → re_search m s = None.
Proof.
  induction s as [|c s IH]; intros H; simpl.
  - by rewrite (H [] []).
  - rewrite (H [] (c :: s)) by done. apply IH. intros s1 s2 ->.
    by apply (H (c :: s1)).
Qed.

Lemma re_search_leftmost {A} (m : str → option A) pre s x :
  m s = Some x →
  (∀ p1 p2, pre = p1 ++ p2 → p2 ≠ [] → m (p2 ++ s) = None) →
  re_search m (pre ++ s) = Some x.
Proof.
  intros Hs. induction pre as [|c pre IH]; intros H.
  - destruct s; simpl; by rewrite Hs.
  - pose proof (H [] (c :: pre) eq_refl) as H0. simpl in *.
    rewrite H0 by done. apply IH.
    intros p1 p2 -> ?. by apply (H (c :: p1)).
Qed.

Lemma re_search_Some {A} (m : str → option A) s x :
  re_search m s = Some x → ∃ s1 s2, s = s1 ++ s2 ∧ m s2 = Some x.
Proof.
  induction s as [|c s IH]; simpl.
  - destruct (m []) eqn:E; [|done]. intros [= ->]. by exists [], [].
  - destruct (m (c :: s)) eqn:E.
    + intros [= ->]. by exists [], (c :: s).
    + intros (s1 & s2 & -> & ?)%IH. by exists (c :: s1), s2.
Qed.

Lemma lstrip_char_id c s : head s ≠ Some c → lstrip_char c s = s.
Proof.
  unfold lstrip_char. destruct s as [|d s]; simpl; [done|].
  destruct (Ascii.eqb_spec c d) as [->|]; [|done]. by intros [].
Qed.

End py_lemmas.

#[global] Arguments Py.strip_prefix : simpl never.
#[global] Arguments Py.span : simpl never.
#[global] Arguments Py.re_search : simpl never.

(** ** Tag clean-up *)

Example clean_tag_v_prefix : clean_tag_of "v1.2.3" = "1.2.3".
Proof. reflexivity. Qed.

Example clean_tag_all_v : clean_tag_of "vvv" = "".
Proof. reflexivity. Qed.

Example clean_tag_hash :
  clean_tag_of "weekly-canary-release-25f89d3aaaaaaaaaaaaaaaaaaaaaaaaaaa" = "release-25f89d3".
Proof. vm_compute. reflexivity. Qed.

Example clean_tag_no_dash :
  clean_tag_of (replicate 40 "x"%char) = replicate 30 "x"%char.
Proof. vm_compute. reflexivity. Qed.

(** Outside the commit-hash branch the result never exceeds 30 characters. *)
Lemma clean_tag_short_enough tag :
  (length (Py.lstrip_char "v" tag) ≤ 30)%nat → clean_tag_of tag = Py.lstrip_char "v" tag.
Proof.
  intros H. unfold clean_tag_of.
  destruct (Nat.ltb_spec 30 (length (Py.lstrip_char "v" tag))); [lia|done].
Qed.

Lemma clean_tag_no_dash_bound tag :
  Py.contains "-" (Py.lstrip_char "v" tag) = false → (length (clean_tag_of tag) ≤ 30)%nat.
Proof.
  intros H. unfold clean_tag_of. rewrite H.
  destruct (Nat.ltb_spec 30 (length (Py.lstrip_char "v" tag))); [|lia].
  rewrite length_take. lia.
Qed.

(** X22: the only path on which the result can exceed 30 characters is
    the commit-hash branch, where the second-to-last part is kept whole. *)
Lemma clean_tag_bound_or_hash_branch tag :
  (length (clean_tag_of tag) ≤ 30)%nat
  ∨ clean_tag_of tag
    = default [] (Py.index_from_end (Py.split "-" (Py.lstrip_char "v" tag)) 2) ++ "-"
        ++ take 7 (default [] (Py.index_from_end (Py.split "-" (Py.lstrip_char "v" tag)) 1)).
Proof.
  unfold clean_tag_of.
  destruct (Nat.ltb_spec 30 (length (Py.lstrip_char "v" tag))); [|left; lia].
  destruct (Py.contains "-" (Py.lstrip_char "v" tag)); [|left; rewrite length_take; lia].
  destruct (1 <? length (Py.split "-" (Py.lstrip_char "v" tag)))%nat eqn:E;
    cbn [andb]; [|left; rewrite length_take; lia].
  destruct (20 <? length (default [] (Py.index_from_end _ 1)))%nat.
  - right. reflexivity.
  - left. rewrite length_take. lia.
Qed.

(** C1: the 30-character bound of the tag clean-up does not hold in the
    commit-hash branch.  With a 40-character second-to-last part and a
    40-character last part the result is the whole second-to-last part, a
    dash and seven characters: 48 characters. *)
Lemma clean_tag_exceeds_30 :
  clean_tag_of "v2024_11_release_candidate_for_version_12-0123456789abcdef0123456789abcdef01234567"
  = "2024_11_release_candidate_for_version_12-0123456"
  ∧ length (clean_tag_of
      "v2024_11_release_candidate_for_version_12-0123456789abcdef0123456789abcdef01234567")
    = 48%nat.
Proof. split; vm_compute; reflexivity. Qed.

(** C7: a string of at most 30 characters that does not begin with ['v']
    is returned unchanged by the tag clean-up. *)
Theorem clean_tag_idempotent (s : str) :
  (length s ≤ 30)%nat → head s ≠ Some "v"%char → clean_tag_of s = s.
Proof.
  intros Hlen Hv.
  rewrite clean_tag_short_enough; rewrite lstrip_char_id; done.
Qed.

Lemma clean_tag_idempotent_witness : clean_tag_of "1.2.3" = "1.2.3".
Proof. apply clean_tag_idempotent; [simpl; lia | simpl; discriminate]. Defined.

(** ** Section name *)

(** The identifier [emulators] is not one of the four the code tests for,
    so it gets the fallback header. *)
Lemma section_name_emulators :
  section_name_of "emulators" = "Release Info" ∧ section_name_of "emulators" ≠ "Versions".
Proof. split; [reflexivity | discriminate]. Qed.


(** ** Repository identifier extractor *)

Lemma not_slash_true c : not_slash c = true ↔ c ≠ "/"%char.
Proof.
  unfold not_slash. destruct (Ascii.eqb_spec c "/"); simpl; split; congruence.
Qed.

Lemma segment_run x : Forall (λ c, c ≠ "/"%char) x ↔ Forall (λ c, not_slash c = true) x.
Proof. apply Forall_iff. intros c. symmetry. apply not_slash_true. Qed.

(** The matcher succeeds at a position exactly when the text there has the
    shape, and its groups are the two components. *)
Lemma match_repo_Some s o r :
  match_repo s = Some (o, r) ↔ segment o ∧ segment r ∧ ∃ post, s = release_url [] o r post.
Proof.
  unfold match_repo, release_url. split.
  - destruct (Py.strip_prefix _ s) as [s1|] eqn:E1; simpl; [|done].
    apply strip_prefix_Some in E1.
    pose proof (span_app_eq not_slash s1) as A1.
    pose proof (span_fst_Forall not_slash s1) as F1.
    destruct (Py.span not_slash s1) as [o' s2]. simpl in *.
    case_bool_decide; [done|].
    destruct (Py.strip_prefix _ s2) as [s3|] eqn:E2; simpl; [|done].
    apply strip_prefix_Some in E2.
    pose proof (span_app_eq not_slash s3) as A2.
    pose proof (span_fst_Forall not_slash s3) as F2.
    destruct (Py.span not_slash s3) as [r' s4]. simpl in *.
    case_bool_decide; [done|].
    destruct (Py.strip_prefix _ s4) as [s5|] eqn:E3; simpl; [|done].
    apply strip_prefix_Some in E3. intros [= <- <-].
    repeat split; try done; try by apply segment_run.
    exists s5. subst. done.
  - intros ((Ho & Fo) & (Hr & Fr) & post & ->).
    rewrite app_nil_l, strip_prefix_app. simpl.
    rewrite (span_run not_slash o); [|by apply segment_run|done].
    rewrite bool_decide_eq_false_2 by done. simpl.
    rewrite (span_run not_slash r); [|by apply segment_run|done].
    rewrite bool_decide_eq_false_2 by done.
    reflexivity.
Qed.

Lemma match_repo_None s :
  match_repo s = None ↔ ¬ ∃ o r post, segment o ∧ segment r ∧ s = release_url [] o r post.
Proof.
  split.
  - intros H (o & r & post & Ho & Hr & Hs).
    assert (match_repo s = Some (o, r)) as E by (apply match_repo_Some; eauto).
    congruence.
  - intros H. destruct (match_repo s) as [[o r]|] eqn:E; [|done].
    apply match_repo_Some in E as (? & ? & post & ?). destruct H. eauto 10.
Qed.

(** C4 (as the claim states it): a URL of the stated shape whose host is
    [repos] and whose repository is called [releases] also has the shape
    one component to the left, and that is the one the search finds. *)
Lemma extract_repo_not_the_stated_pair :
  segment "o" ∧ segment "releases"
  ∧ release_url "https://repos" "o" "releases" "" = "https://repos/repos/o/releases/releases"
  ∧ extract_repo_from_url (release_url "https://repos" "o" "releases" "")
    = Some ("repos" : str, "o" : str)
  ∧ extract_repo_from_url (release_url "https://repos" "o" "releases" "")
    ≠ Some ("o" : str, "releases" : str).
Proof.
  repeat split; try discriminate; try reflexivity.
  all: repeat (constructor; [discriminate|]); constructor.
Qed.

(** C4 (amended): for a URL [pre/repos/O/R/releases post] with [O] and [R]
    non-empty and free of ['/'], in which the shape does not also occur
    starting further left, the extractor returns [(O, R)]; for a string in
    which the shape occurs nowhere it returns [None]. *)
Theorem extract_repo_from_url_spec (url : str) :
  (∀ pre o r post,
     segment o → segment r → url = release_url pre o r post →
     (∀ pre' o' r' post', segment o' → segment r' →
        url = release_url pre' o' r' post' → (length pre ≤ length pre')%nat) →
     extract_repo_from_url url = Some (o, r))
  ∧ ((¬ ∃ pre o r post, segment o ∧ segment r ∧ url = release_url pre o r post) →
     extract_repo_from_url url = None).
Proof.
  unfold extract_repo_from_url. split.
  - intros pre o r post Ho Hr -> Hleft.
    apply (re_search_leftmost match_repo pre (release_url [] o r post)).
    + apply match_repo_Some. eauto.
    + intros p1 p2 -> Hp2.
      destruct (match_repo (p2 ++ release_url [] o r post)) as [[o' r']|] eqn:E; [|done].
      apply match_repo_Some in E as (Ho' & Hr' & post' & E).
      specialize (Hleft p1 o' r' post' Ho' Hr').
      unfold release_url in Hleft at 1 2. simpl in Hleft.
      rewrite <- (assoc_L (++)) in Hleft.
      unfold release_url in E. simpl in E. rewrite E in Hleft.
      specialize (Hleft eq_refl). rewrite length_app in Hleft.
      destruct p2; [done|]. simpl in Hleft. lia.
  - intros Hno. apply re_search_None. intros s1 s2 ->.
    apply match_repo_None. intros (o & r & post & Ho & Hr & ->).
    apply Hno. exists s1, o, r, post. done.
Qed.

(** Peels the unknown prefix of a shape equation against a literal text,
    one character at a time. *)
Ltac peel_prefix E pre :=
  repeat (destruct pre as [|? pre]; simpl in E; [discriminate E | injection E as _ E]).

Lemma extract_repo_from_url_spec_witness :
  extract_repo_from_url "https://api.github.com/repos/foo/bar/releases?per_page=1"
  = Some ("foo" : str, "bar" : str)
  ∧ extract_repo_from_url "https://example.org/" = None.
Proof.
  split.
  - apply (proj1 (extract_repo_from_url_spec _)
             "https://api.github.com" "foo" "bar" "?per_page=1").
    + split; [discriminate | repeat (constructor; [discriminate|]); constructor].
    + split; [discriminate | repeat (constructor; [discriminate|]); constructor].
    + reflexivity.
    + intros pre' o' r' post' _ _ E. unfold release_url in E. simpl in E.
      do 22 (destruct pre' as [|? pre']; simpl in E;
             [discriminate E | injection E as _ E]).
      simpl. lia.
  - apply (proj2 (extract_repo_from_url_spec _)).
    intros (pre & o & r & post & _ & _ & E). unfold release_url in E. simpl in E.
    peel_prefix E pre. destruct pre; discriminate E.
Defined.

(** ** Config reader *)

Example parse_sample :
  parse_ini_text sample_ini
  = [ Entry "MyModule" "foo" "bar" "https://api.github.com/repos/foo/bar/releases?per_page=1";
      Entry "Other" "baz" "qux" "https://api.github.com/repos/baz/qux/releases" ].
Proof. vm_compute. reflexivity. Qed.

Example sections_sample : (λ s : str * str, s.1) <$> sections sample_ini
  = ["MyModule" : str; "Notes" : str; "Other" : str].
Proof. vm_compute. reflexivity. Qed.

Lemma re_finditer_from_nil {A} (m : bool → str → option (A * nat)) skip bol s :
  (∀ b s1 s2, s = s1 ++ s2 → m b s2 = None) → Py.re_finditer_from m skip bol s = [].
Proof.
  revert skip bol. induction s as [|c s IH]; intros skip bol H; simpl; [done|].
  assert (∀ b s1 s2, s = s1 ++ s2 → m b s2 = None) as H'.
  { intros b s1 s2 ->. by apply (H b (c :: s1)). }
  destruct skip; [|by apply IH].
  rewrite (H bol [] (c :: s)) by done. by apply IH.
Qed.

Lemma match_github_url_Some b s r : match_github_url b s = Some r → has_release_url s.
Proof.
  unfold match_github_url.
  destruct (Py.strip_prefix _ s) as [s1|] eqn:E; simpl; [|done].
  apply strip_prefix_Some in E.
  pose proof (span_app_eq not_space s1) as A.
  pose proof (span_fst_Forall not_space s1) as F.
  destruct (Py.span not_space s1) as [[|c tail] rest]; simpl in *; [done|].
  intros _. exists [], c, (tail ++ rest). split.
  - apply Forall_cons in F as [F _]. unfold not_space in F. by destruct (Py.isspace c).
  - subst. done.
Qed.

Lemma has_release_url_app pre s : has_release_url s → has_release_url (pre ++ s).
Proof.
  intros (p & c & post & Hc & ->). exists (pre ++ p), c, post. split; [done|].
  by rewrite <- (assoc_L (++)).
Qed.

Lemma findall_github_url_nil body :
  ¬ has_release_url body → Py.re_finditer match_github_url body = [].
Proof.
  intros H. apply re_finditer_from_nil. intros b s1 s2 ->.
  destruct (match_github_url b s2) eqn:E; [|done].
  destruct H. eapply has_release_url_app, match_github_url_Some, E.
Qed.

Lemma foldl_append_omap {A B} (f : A → option B) (l : list A) (acc : list B) :
  foldl (λ entries x, match f x with Some e => entries ++ [e] | None => entries end) acc l
  = acc ++ omap f l.
Proof.
  revert acc. induction l as [|x l IH]; intros acc; simpl.
  - by rewrite app_nil_r.
  - rewrite IH. destruct (f x); [|done]. by rewrite <- (assoc_L (++)).
Qed.

Lemma parse_ini_text_omap content :
  parse_ini_text content = omap entry_of_section (sections content).
Proof. unfold parse_ini_text. by rewrite foldl_append_omap. Qed.

(** ** Release fetcher and loop body *)

Section fetch_props.
Variable remote : nat → str → response.

(** [get_latest_tag] never raises: every failure is turned into [None]. *)
Lemma get_latest_tag_run owner repo w :
  ∃ w', get_latest_tag remote owner repo w
        = Returned (latest_tag (remote (requests w) (releases_url owner repo))) w'
        ∧ fetched_once w w'
        ∧ sleeps w' = sleeps w
        ∧ console w'
          = console w ++ diagnostics_of (remote (requests w) (releases_url owner repo)).
Proof.
  unfold get_latest_tag, fetched_once, mbind, M_bind, gets, modify, print_diagnostic, mret, M_ret.
  simpl. destruct (remote (requests w) (releases_url owner repo)) as [code reason|msg|[|first rest]];
    simpl; repeat case_bool_decide; simpl; eexists; (split; [reflexivity|]); simpl;
    rewrite ?app_nil_r; done.
Qed.

Lemma pause_run i w :
  ∃ w', (if (0 <? i)%nat then sleep_500ms else mret ()) w = Returned () w'
        ∧ files w' = files w ∧ written w' = written w ∧ requests w' = requests w.
Proof. destruct (0 <? i)%nat; eexists; (split; [reflexivity|]); done. Qed.

(** An iteration whose tag is [None] or empty records a failure. *)
Lemma loop_body_falsy section_name i entry st w :
  Py.truthy (latest_tag (remote (requests w) (releases_url (owner entry) (repo entry)))) = false →
  ∃ w', loop_body remote section_name i entry st w
        = Returned (LoopState (config st) (success_count st) (S (failure_count st))
                              (failed_entries st ++ [failed_entry_line entry])) w'
        ∧ fetched_once w w'.
Proof.
  intros Hfalsy. unfold loop_body.
  destruct (pause_run i w) as (w0 & E0 & F0 & W0 & R0).
  destruct (get_latest_tag_run (owner entry) (repo entry) w0) as (w1 & E1 & (F1 & W1 & R1) & _).
  rewrite R0 in E1.
  unfold mbind, M_bind at 1. rewrite E0.
  unfold mbind, M_bind at 1. rewrite E1, Hfalsy.
  eexists. split; [reflexivity|]. unfold fetched_once. rewrite F1, W1, R1, F0, W0, R0. done.
Qed.

(** An iteration with a non-empty tag stores the cleaned tag, or raises
    what [config.set] raises. *)
Lemma loop_body_truthy section_name i entry st w :
  Py.truthy (latest_tag (remote (requests w) (releases_url (owner entry) (repo entry)))) = true →
  ∃ w', fetched_once w w'
        ∧ loop_body remote section_name i entry st w
          = match ConfigParser.set section_name (name entry)
                    (clean_tag_of (default [] (latest_tag
                       (remote (requests w) (releases_url (owner entry) (repo entry))))))
                    (config st) with
            | Ok cfg => Returned (LoopState cfg (S (success_count st)) (failure_count st)
                                            (failed_entries st)) w'
            | Err e => Raised e w'
            end.
Proof.
  intros Htruthy. unfold loop_body.
  destruct (pause_run i w) as (w0 & E0 & F0 & W0 & R0).
  destruct (get_latest_tag_run (owner entry) (repo entry) w0) as (w1 & E1 & (F1 & W1 & R1) & _).
  rewrite R0 in E1.
  exists w1. split; [unfold fetched_once; by rewrite F1, W1, R1, F0, W0, R0|].
  unfold mbind, M_bind at 1. rewrite E0.
  unfold mbind, M_bind at 1. rewrite E1, Htruthy.
  unfold mbind, M_bind, lift.
  destruct (ConfigParser.set _ _ _ _); reflexivity.
Qed.

(** C6: when the request fails with an HTTP status (404, 403 or any
    other) or with any other exception, the fetcher returns [None] without
    raising, and the iteration leaves the manifest and the success counter
    as they were, appends [name (owner/repo)] to the failed entries and
    adds one to the failure counter.  No file is touched. *)
Theorem failed_fetch_is_counted section_name i entry st w :
  fetch_fails (remote (requests w) (releases_url (owner entry) (repo entry))) →
  (∀ w0, requests w0 = requests w →
         ∃ w1, get_latest_tag remote (owner entry) (repo entry) w0 = Returned None w1)
  ∧ ∃ w', loop_body remote section_name i entry st w
          = Returned (LoopState (config st) (success_count st) (S (failure_count st))
                        (failed_entries st
                           ++ [name entry ++ " (" ++ owner entry ++ "/" ++ repo entry ++ ")"]))
                     w'
          ∧ files w' = files w ∧ written w' = written w.
Proof.
  intros Hfail.
  assert (latest_tag (remote (requests w) (releases_url (owner entry) (repo entry))) = None) as Hnone.
  { destruct Hfail as [(code & reason & ->)|(msg & ->)]; reflexivity. }
  split.
  - intros w0 Hw0.
    destruct (get_latest_tag_run (owner entry) (repo entry) w0) as (w1 & E1 & _).
    rewrite Hw0, Hnone in E1. eauto.
  - destruct (loop_body_falsy section_name i entry st w) as (w' & E & F & W & _).
    { by rewrite Hnone. }
    exists w'. done.
Qed.

(** C10: a first release object with neither [tag_name] nor [name] makes
    the fetcher return the empty string, not [None]; the iteration then
    treats the entry as failed all the same. *)
Theorem missing_fields_counted_as_failure section_name i entry st w first rest :
  remote (requests w) (releases_url (owner entry) (repo entry)) = Releases (first :: rest) →
  first !! ("tag_name" : str) = None →
  first !! ("name" : str) = None →
  (∃ w1, get_latest_tag remote (owner entry) (repo entry) w = Returned (Some []) w1)
  ∧ ∃ w', loop_body remote section_name i entry st w
          = Returned (LoopState (config st) (success_count st) (S (failure_count st))
                        (failed_entries st ++ [failed_entry_line entry]))
                     w'
          ∧ files w' = files w ∧ written w' = written w.
Proof.
  intros Hresp Htag Hname.
  assert (latest_tag (remote (requests w) (releases_url (owner entry) (repo entry))) = Some [])
    as Hempty.
  { rewrite Hresp. unfold latest_tag. by rewrite Htag, Hname. }
  split.
  - destruct (get_latest_tag_run (owner entry) (repo entry) w) as (w1 & E1 & _).
    rewrite Hempty in E1. eauto.
  - destruct (loop_body_falsy section_name i entry st w) as (w' & E & F & W & _).
    { by rewrite Hempty. }
    exists w'. done.
Qed.

End fetch_props.

Lemma failed_fetch_is_counted_witness :
  fetch_fails (remote_404 (requests sample_world) (releases_url "baz" "qux"))
  ∧ ∃ w', loop_body remote_404 "Versions" 1 sample_entry (initial_state "Versions") sample_world
          = Returned (LoopState (ConfigParser.Config [] [("Versions" : str, [])]) 0 1
                                ["Other (baz/qux)" : str]) w'
          ∧ files w' = files sample_world ∧ written w' = written sample_world.
Proof.
  assert (fetch_fails (remote_404 (requests sample_world) (releases_url "baz" "qux"))) as H.
  { left. eexists _, _. reflexivity. }
  split; [exact H|].
  exact (proj2 (failed_fetch_is_counted remote_404 "Versions" 1 sample_entry
                  (initial_state "Versions") sample_world H)).
Defined.

Lemma missing_fields_counted_as_failure_witness :
  (∃ w1, get_latest_tag remote_bare "baz" "qux" sample_world = Returned (Some []) w1)
  ∧ ∃ w', loop_body remote_bare "Versions" 0 sample_entry (initial_state "Versions") sample_world
          = Returned (LoopState (ConfigParser.Config [] [("Versions" : str, [])]) 0 1
                                ["Other (baz/qux)" : str]) w'
          ∧ files w' = files sample_world ∧ written w' = written sample_world.
Proof.
  exact (missing_fields_counted_as_failure remote_bare "Versions" 0 sample_entry
           (initial_state "Versions") sample_world ∅ [] eq_refl eq_refl eq_refl).
Defined.

(** ** The manifest object *)

Section dict_props.
Import ConfigParser.
Context {V : Type}.
Implicit Types (d : dict V) (k : str) (v : V).

Lemma dict_get_set_eq k v d : dict_get k (dict_set k v d) = Some v.
Proof.
  induction d as [|[k' v'] d IH]; simpl.
  - by rewrite bool_decide_eq_true_2.
  - case_bool_decide as Hk; simpl.
    + by rewrite bool_decide_eq_true_2.
    + by rewrite bool_decide_eq_false_2.
Qed.

Lemma keys_dict_set k v d k0 : k0 ∈ keys (dict_set k v d) ↔ k0 = k ∨ k0 ∈ keys d.
Proof.
  unfold keys. induction d as [|[k' v'] d IH]; simpl.
  - rewrite elem_of_cons. tauto.
  - case_bool_decide as Hk; simpl.
    + subst. rewrite elem_of_cons. tauto.
    + rewrite !elem_of_cons, IH. tauto.
Qed.

(** Storing under a new key appends; the order of the others is kept. *)
Lemma dict_set_fresh k v d : k ∉ keys d → dict_set k v d = d ++ [(k, v)].
Proof.
  unfold keys. induction d as [|[k' v'] d IH]; simpl; [done|].
  intros [Hne Hnot]%not_elem_of_cons.
  rewrite bool_decide_eq_false_2 by done. by rewrite IH.
Qed.

End dict_props.

Lemma section_name_of_cases category :
  section_name_of category = "Versions" ∨ section_name_of category = "Release Info".
Proof. unfold section_name_of. repeat case_bool_decide; auto. Qed.

Lemma section_name_of_ordinary category : ordinary_section (section_name_of category).
Proof. destruct (section_name_of_cases category) as [-> | ->]; split; discriminate. Qed.

Lemma add_section_new section_name :
  ordinary_section section_name →
  ConfigParser.add_section section_name ConfigParser.new
  = Ok (ConfigParser.Config [] [(section_name, [])]).
Proof.
  intros [_ Hd]. unfold ConfigParser.add_section.
  rewrite bool_decide_eq_false_2 by done.
  rewrite bool_decide_eq_false_2; [done|]. simpl. apply not_elem_of_nil.
Qed.

(** [config.set] on the one-section manifest: the option is stored unless
    the value is refused. *)
Lemma set_single_section section_name option value items :
  ordinary_section section_name →
  ConfigParser.set section_name option value (ConfigParser.Config [] [(section_name, items)])
  = if set_accepts value
    then Ok (ConfigParser.Config [] [(section_name, ConfigParser.dict_set option value items)])
    else Err ValueError.
Proof.
  intros [Hne Hd]. unfold ConfigParser.set, set_accepts.
  rewrite (bool_decide_eq_false_2 (section_name = [])) by done.
  rewrite (bool_decide_eq_false_2 (section_name = ConfigParser.default_section)) by done.
  simpl. rewrite (bool_decide_eq_true_2 (section_name = section_name)) by done.
  by destruct (bool_decide (value = [])), (ConfigParser.valid_interpolation_syntax value).
Qed.

(** ** The loop over the entries *)

Lemma successes_cons_true e tag l :
  Py.truthy tag = true → successes ((e, tag) :: l) = (e, tag) :: successes l.
Proof. intros H. unfold successes. by rewrite filter_cons_True. Qed.

Lemma successes_cons_false e tag l :
  Py.truthy tag = false → successes ((e, tag) :: l) = successes l.
Proof.
  intros H. unfold successes. rewrite filter_cons_False; [done|].
  unfold succeeded. simpl. congruence.
Qed.

Lemma failures_cons_true e tag l :
  Py.truthy tag = true → failures ((e, tag) :: l) = failures l.
Proof.
  intros H. unfold failures. rewrite filter_cons_False; [done|].
  unfold succeeded. simpl. tauto.
Qed.

Lemma failures_cons_false e tag l :
  Py.truthy tag = false → failures ((e, tag) :: l) = (e, tag) :: failures l.
Proof.
  intros H. unfold failures. rewrite filter_cons_True; [done|].
  unfold succeeded. simpl. congruence.
Qed.

Lemma all_accepted_cons_true e tag l :
  Py.truthy tag = true →
  all_accepted ((e, tag) :: l)
  ↔ set_accepts (clean_tag_of (default [] tag)) = true ∧ all_accepted l.
Proof.
  intros H. unfold all_accepted. rewrite successes_cons_true by done.
  rewrite Forall_cons. reflexivity.
Qed.

Lemma all_accepted_cons_false e tag l :
  Py.truthy tag = false → all_accepted ((e, tag) :: l) ↔ all_accepted l.
Proof. intros H. unfold all_accepted. by rewrite successes_cons_false. Qed.

Lemma manifest_items_cons_true e tag l items :
  Py.truthy tag = true →
  manifest_items ((e, tag) :: l) items
  = manifest_items l (ConfigParser.dict_set (name e) (clean_tag_of (default [] tag)) items).
Proof. intros H. unfold manifest_items. by rewrite successes_cons_true. Qed.

Lemma manifest_items_cons_false e tag l items :
  Py.truthy tag = false → manifest_items ((e, tag) :: l) items = manifest_items l items.
Proof. intros H. unfold manifest_items. by rewrite successes_cons_false. Qed.

(** Successes and failures split the entries. *)
Lemma successes_failures_length l : (length (successes l) + length (failures l) = length l)%nat.
Proof.
  induction l as [|[e tag] l IH]; [done|].
  destruct (Py.truthy tag) eqn:E.
  - rewrite successes_cons_true, failures_cons_true by done. simpl. lia.
  - rewrite successes_cons_false, failures_cons_false by done. simpl. lia.
Qed.

Lemma fetched_length remote n entries : length (fetched remote n entries) = length entries.
Proof. revert n. induction entries as [|e entries IH]; intros n; simpl; [done|]. by rewrite IH. Qed.

Lemma fetched_entries remote n entries : (fetched remote n entries).*1 = entries.
Proof. revert n. induction entries as [|e entries IH]; intros n; simpl; [done|]. by rewrite IH. Qed.

Section loop_props.
Variable remote : nat → str → response.

(** The loop as a function of the answers it receives: it raises
    [ValueError] when some successful entry's version is refused by
    [config.set], and otherwise ends with the successes stored, both
    counters advanced and the failures listed in order.  It touches no
    file either way. *)
Lemma for_entries_run section_name entries : ∀ i st w items,
  ordinary_section section_name →
  config st = ConfigParser.Config [] [(section_name, items)] →
  ∃ w', files w' = files w ∧ written w' = written w
    ∧ (all_accepted (fetched remote (requests w) entries) →
       requests w' = (requests w + length entries)%nat
       ∧ for_entries remote section_name i entries st w
         = Returned
             (LoopState
                (ConfigParser.Config []
                   [(section_name, manifest_items (fetched remote (requests w) entries) items)])
                (success_count st + length (successes (fetched remote (requests w) entries)))
                (failure_count st + length (failures (fetched remote (requests w) entries)))
                (failed_entries st
                   ++ ((λ r, failed_entry_line r.1)
                         <$> failures (fetched remote (requests w) entries))))
             w')
    ∧ (¬ all_accepted (fetched remote (requests w) entries) →
       for_entries remote section_name i entries st w = Raised ValueError w').
Proof.
  induction entries as [|entry entries IH]; intros i st w items Hsec Hcfg.
  - exists w. split_and!; [done..| |].
    + intros _. split; [simpl; lia|]. simpl. unfold mret, M_ret. f_equal.
      destruct st; simpl in *. subst. f_equal; [lia..|by rewrite app_nil_r].
    + intros []. constructor.
  - simpl fetched. simpl for_entries.
    set (tag := latest_tag (remote (requests w) (releases_url (owner entry) (repo entry)))).
    destruct (Py.truthy tag) eqn:Htag.
    + destruct (loop_body_truthy remote section_name i entry st w Htag)
        as (w1 & (F1 & W1 & R1) & E1).
      fold tag in E1. rewrite Hcfg, set_single_section in E1 by done.
      destruct (set_accepts (clean_tag_of (default [] tag))) eqn:Hacc.
      * destruct (IH (S i)
                    (LoopState
                       (ConfigParser.Config []
                          [(section_name,
                            ConfigParser.dict_set (name entry) (clean_tag_of (default [] tag))
                              items)])
                       (S (success_count st)) (failure_count st) (failed_entries st))
                    w1 _ Hsec eq_refl) as (w' & F' & W' & Hok & Hbad).
        rewrite R1 in Hok, Hbad. exists w'.
        split_and!; [congruence..| |].
        -- intros [_ Hall]%all_accepted_cons_true; [|done].
           destruct (Hok Hall) as [R' E'].
           split; [simpl; lia|]. unfold mbind, M_bind. rewrite E1, E'.
           rewrite (manifest_items_cons_true _ _ _ _ Htag).
           rewrite (successes_cons_true _ _ _ Htag), (failures_cons_true _ _ _ Htag).
           f_equal. simpl. f_equal. lia.
        -- intros Hnot. unfold mbind, M_bind. rewrite E1. apply Hbad.
           intros Hall. apply Hnot. by apply all_accepted_cons_true.
      * exists w1. split_and!; [done..| |].
        -- intros [? _]%all_accepted_cons_true; [|done]. congruence.
        -- intros _. unfold mbind, M_bind. by rewrite E1.
    + destruct (loop_body_falsy remote section_name i entry st w Htag)
        as (w1 & E1 & F1 & W1 & R1).
      destruct (IH (S i)
                  (LoopState (config st) (success_count st) (S (failure_count st))
                             (failed_entries st ++ [failed_entry_line entry]))
                  w1 items Hsec Hcfg) as (w' & F' & W' & Hok & Hbad).
      rewrite R1 in Hok, Hbad. exists w'.
      split_and!; [congruence..| |].
      * intros Hall%all_accepted_cons_false; [|done]. destruct (Hok Hall) as [R' E'].
        split; [simpl; lia|]. unfold mbind, M_bind. rewrite E1, E'.
        rewrite (manifest_items_cons_false _ _ _ _ Htag).
        rewrite (successes_cons_false _ _ _ Htag), (failures_cons_false _ _ _ Htag).
        f_equal. simpl. f_equal; [lia|]. by rewrite <- (assoc_L (++)).
      * intros Hnot. unfold mbind, M_bind. rewrite E1. apply Hbad.
        intros Hall. apply Hnot. by apply all_accepted_cons_false.
Qed.

End loop_props.

(** ** [generate_release_ini] and the category blocks *)

Lemma keys_manifest_items l : ∀ items k,
  k ∈ ConfigParser.keys (manifest_items l items)
  ↔ k ∈ ConfigParser.keys items ∨ ∃ r, r ∈ successes l ∧ name r.1 = k.
Proof.
  unfold manifest_items. induction (successes l) as [|r rs IH]; intros items k; simpl.
  - split; [auto|]. intros [?|(r & Hr & _)]; [done|]. by apply elem_of_nil in Hr.
  - rewrite IH, keys_dict_set. split.
    + intros [[->|?]|(r' & Hr' & <-)]; [right|left|right]; try done.
      * exists r. split; [apply list_elem_of_here|done].
      * exists r'. split; [by apply list_elem_of_further|done].
    + intros [?|(r' & [->|Hr']%elem_of_cons & <-)]; [left; by right|left; by left|right].
      by exists r'.
Qed.

Section category_props.
Variable remote : nat → str → response.

(** The whole of [generate_release_ini]: either every stored version is
    accepted, the manifest is written and the result counts successes and
    failures; or [config.set] raises [ValueError] and nothing is written. *)
Lemma generate_release_ini_run category entries output_path w :
  ∃ w0, files w0 = files w ∧ written w0 = written w
    ∧ (all_accepted (fetched remote (requests w) entries) →
       generate_release_ini remote category entries output_path w
       = Returned
           (CategoryResult category (length entries)
              (length (successes (fetched remote (requests w) entries)))
              (length (failures (fetched remote (requests w) entries)))
              ((λ r, failed_entry_line r.1) <$> failures (fetched remote (requests w) entries)))
           (set_written (λ l, l ++ [output_path])
              (set_files
                 (insert output_path
                    (manifest_text category (fetched remote (requests w) entries)))
                 w0)))
    ∧ (¬ all_accepted (fetched remote (requests w) entries) →
       generate_release_ini remote category entries output_path w = Raised ValueError w0).
Proof.
  pose proof (section_name_of_ordinary category) as Hsec.
  destruct (for_entries_run remote (section_name_of category) entries 0
              (LoopState (ConfigParser.Config [] [(section_name_of category, [])]) 0 0 [])
              w [] Hsec eq_refl) as (w0 & F0 & W0 & Hok & Hbad).
  exists w0. split_and!; [done..| |].
  - intros Hall. destruct (Hok Hall) as [_ E].
    unfold generate_release_ini. rewrite add_section_new by done.
    unfold lift. unfold mbind at 1, M_bind at 1. unfold mret at 1, M_ret at 1.
    unfold mbind at 1, M_bind at 1. rewrite E. reflexivity.
  - intros Hnot. specialize (Hbad Hnot).
    unfold generate_release_ini. rewrite add_section_new by done.
    unfold lift. unfold mbind at 1, M_bind at 1. unfold mret at 1, M_ret at 1.
    unfold mbind at 1, M_bind at 1. by rewrite Hbad.
Qed.

(** Whenever [generate_release_ini] returns, every entry is counted once:
    the counters add up to the number of entries, each entry with a
    non-empty tag has its name among the keys of the manifest written to
    the output path, and each other entry has its line among the failed
    entries. *)
Lemma accounting_when_returned category entries output_path w res w' :
  generate_release_ini remote category entries output_path w = Returned res w' →
  total res = length entries
  ∧ (success res + failed res = total res)%nat
  ∧ success res = length (successes (fetched remote (requests w) entries))
  ∧ failed res = length (failures (fetched remote (requests w) entries))
  ∧ length (result_failed_entries res) = failed res
  ∧ ∃ items,
      files w' !! output_path
      = Some (ConfigParser.write (ConfigParser.Config [] [(section_name_of category, items)]))
      ∧ ∀ r, r ∈ fetched remote (requests w) entries →
             (succeeded r → name r.1 ∈ ConfigParser.keys items)
             ∧ (¬ succeeded r → failed_entry_line r.1 ∈ result_failed_entries res).
Proof.
  intros Hrun.
  destruct (generate_release_ini_run category entries output_path w)
    as (w0 & F0 & W0 & Hok & Hbad).
  destruct (decide (all_accepted (fetched remote (requests w) entries))) as [Hall|Hnot];
    [|rewrite (Hbad Hnot) in Hrun; discriminate].
  rewrite (Hok Hall) in Hrun. injection Hrun as <- <-. simpl.
  pose proof (successes_failures_length (fetched remote (requests w) entries)) as Hlen.
  rewrite fetched_length in Hlen.
  split_and!; [done..|by rewrite length_fmap|].
  exists (manifest_items (fetched remote (requests w) entries) []). split.
  - apply lookup_insert_eq.
  - intros r Hr. split.
    + intros Hs. apply keys_manifest_items. right. exists r. split; [|done].
      by apply list_elem_of_filter.
    + intros Hs. apply (list_elem_of_fmap_2 (λ r, failed_entry_line r.1)).
      by apply list_elem_of_filter.
Qed.

(** A category block, step by step. *)
Lemma category_job_unfold category dir input output all_results w :
  category_job remote category dir input output all_results w
  = match files w !! (dir ++ "/" ++ input) with
    | None => Returned all_results w
    | Some raw =>
        if bool_decide (parse_ini_text (universal_newlines raw) = []) then Returned all_results w
        else match generate_release_ini remote category
                     (parse_ini_text (universal_newlines raw)) (dir ++ "/" ++ output) w with
             | Returned res w' => Returned (all_results ++ [res]) w'
             | Raised e w' => Raised e w'
             end
    end.
Proof.
  unfold category_job, path_exists, gets, parse_ini_file, read_text, mbind, M_bind, mret, M_ret.
  destruct (files w !! (dir ++ "/" ++ input)) as [raw|] eqn:Hfile.
  - rewrite bool_decide_eq_true_2 by eauto. cbv beta. rewrite Hfile. by case_bool_decide.
  - rewrite bool_decide_eq_false_2; [done|]. by intros [? ?].
Qed.

(** One category block of [main]: nothing is written when the input file
    is missing or yields no entry; with at least one entry the manifest is
    written unless [config.set] raises. *)
Lemma category_job_run category dir input output all_results w :
  match files w !! (dir ++ "/" ++ input) with
  | None => category_job remote category dir input output all_results w = Returned all_results w
  | Some raw =>
      let entries := parse_ini_text (universal_newlines raw) in
      if bool_decide (entries = []) then
        category_job remote category dir input output all_results w = Returned all_results w
      else
        ∃ w0, files w0 = files w ∧ written w0 = written w
          ∧ (all_accepted (fetched remote (requests w) entries) →
             ∃ res,
               category_job remote category dir input output all_results w
               = Returned (all_results ++ [res])
                   (set_written (λ l, l ++ [dir ++ "/" ++ output])
                      (set_files
                         (insert (dir ++ "/" ++ output)
                            (manifest_text category (fetched remote (requests w) entries)))
                         w0)))
          ∧ (¬ all_accepted (fetched remote (requests w) entries) →
             category_job remote category dir input output all_results w
             = Raised ValueError w0)
  end.
Proof.
  rewrite category_job_unfold.
  destruct (files w !! (dir ++ "/" ++ input)) as [raw|]; [|done].
  cbv zeta. case_bool_decide as Hempty; [done|].
  destruct (generate_release_ini_run category (parse_ini_text (universal_newlines raw))
              (dir ++ "/" ++ output) w) as (w0 & F0 & W0 & Hok & Hbad).
  exists w0. split_and!; [done..| |].
  - intros Hall. eexists. rewrite (Hok Hall). reflexivity.
  - intros Hnot. by rewrite (Hbad Hnot).
Qed.

End category_props.

(** When no entry succeeds the manifest holds the header and nothing else. *)
Lemma manifest_text_no_success category l :
  successes l = [] →
  manifest_text category l = "[" ++ section_name_of category ++ "]" ++ [Py.LF; Py.LF].
Proof.
  intros H. unfold manifest_text, manifest_items. rewrite H. simpl.
  unfold ConfigParser.write, ConfigParser.write_section. simpl.
  by rewrite app_nil_r.
Qed.

(** C3: with one entry whose latest tag is [100%], [config.set] refuses
    the value: [generate_release_ini] raises [ValueError], returns no
    result for the category and writes nothing. *)
Lemma refused_tag_no_category_result :
  ∃ w', generate_release_ini (remote_tag "100%") "sysmodules" [sample_entry]
          "sysmodules/RELEASE_SM.ini" sample_world
        = Raised ValueError w'
        ∧ written w' = [] ∧ files w' = files sample_world.
Proof. eexists. split; [vm_compute; reflexivity|]. split; reflexivity. Qed.

(** C9: the sample input yields two entries, yet with the latest tag
    [100%] the run stops with [ValueError] in the first category and no
    manifest is written. *)
Lemma refused_tag_no_manifest :
  parse_ini_text (universal_newlines sample_ini) ≠ []
  ∧ ∃ w', main (remote_tag "100%") sample_world = Raised ValueError w'
          ∧ written w' = []
          ∧ files w' !! ("sysmodules/RELEASE_SM.ini" : str) = None.
Proof.
  split; [vm_compute; discriminate|].
  eexists. split; [vm_compute; reflexivity|]. split; reflexivity.
Qed.

(** ** Writing the manifest and reading it back *)

Example round_trip_sample :
  ConfigParser.read_string
    (ConfigParser.write
       (ConfigParser.Config [] [("Versions" : str, [("A" : str, "1.0" : str);
                                                     ("B" : str, "2.3.4" : str)])]))
  = Ok (ConfigParser.Config [] [("Versions" : str, [("A" : str, "1.0" : str);
                                                     ("B" : str, "2.3.4" : str)])]).
Proof. vm_compute. reflexivity. Qed.

(** C5 (as the claim states it): a section called [Mod: Extras] gives an
    entry of that name; written as [Mod: Extras=1.0], the line is read back
    as the key [Mod] with the value [Extras=1.0], because the parser splits
    a line at its first [=] or [:]. *)
Lemma delimiter_in_name_breaks_round_trip :
  ∃ w', round_trip "sysmodules/RELEASE_SM.ini"
          (ConfigParser.Config [] [("Versions" : str, [("Mod: Extras" : str, "1.0" : str)])])
          sample_world
        = Returned
            (ConfigParser.Config [] [("Versions" : str, [("Mod" : str, "Extras=1.0" : str)])])
            w'
  ∧ ConfigParser.Config [] [("Versions" : str, [("Mod" : str, "Extras=1.0" : str)])]
    ≠ ConfigParser.Config [] [("Versions" : str, [("Mod: Extras" : str, "1.0" : str)])].
Proof. eexists. split; [vm_compute; reflexivity | discriminate]. Qed.

Section strip_lemmas.
Import Py.

Lemma lstrip_no_leading s :
  match s with [] => True | c :: _ => isspace c = false end → lstrip s = s.
Proof.
  unfold lstrip. destruct s as [|c s]; [done|]. intros H.
  by rewrite span_false_head.
Qed.

Lemma rstrip_trailing s ws :
  match last s with Some c => isspace c = false | None => True end →
  Forall (λ c, isspace c = true) ws →
  rstrip (s ++ ws) = s.
Proof.
  intros Hlast Hws. unfold rstrip, lstrip.
  rewrite reverse_app, (span_run isspace (reverse ws) (reverse s)).
  - simpl. apply reverse_involutive.
  - by apply Forall_reverse.
  - rewrite <- (reverse_involutive s) in Hlast. rewrite last_reverse in Hlast.
    by destruct (reverse s).
Qed.

Lemma trimmed_head s :
  trimmed s = true → match s with [] => True | c :: _ => isspace c = false end.
Proof.
  unfold trimmed. destruct s as [|c s]; [done|].
  intros [H _]%andb_true_iff. by apply negb_true_iff.
Qed.

Lemma trimmed_last s :
  trimmed s = true → match last s with Some c => isspace c = false | None => True end.
Proof.
  unfold trimmed. intros [_ H]%andb_true_iff.
  destruct (last s); [|done]. by apply negb_true_iff.
Qed.

Lemma strip_trimmed s : trimmed s = true → strip s = s.
Proof.
  intros H. unfold strip. rewrite lstrip_no_leading by by apply trimmed_head.
  rewrite <- (app_nil_r s) at 1.
  apply rstrip_trailing; [by apply trimmed_last | constructor].
Qed.

Lemma rstrip_trimmed s : trimmed s = true → rstrip s = s.
Proof.
  intros H. rewrite <- (app_nil_r s) at 1.
  apply rstrip_trailing; [by apply trimmed_last | constructor].
Qed.

(** A line of the written file, stripped: the terminator goes, the rest
    stays. *)
Lemma strip_line s :
  match s with [] => True | c :: _ => isspace c = false end →
  match last s with Some c => isspace c = false | None => True end →
  strip (s ++ [LF]) = s.
Proof.
  intros Hhead Hlast. unfold strip.
  destruct s as [|c s].
  - reflexivity.
  - rewrite lstrip_no_leading by done.
    apply rstrip_trailing; [done|]. by repeat constructor.
Qed.

End strip_lemmas.

Lemma not_contains c cs : Py.contains c cs = false ↔ Forall (λ d, c ≠ d) cs.
Proof.
  unfold Py.contains. induction cs as [|d cs IH]; simpl.
  - split; [constructor|done].
  - rewrite orb_false_iff, IH, Forall_cons.
    destruct (Ascii.eqb_spec c d); split; intros [? ?]; split; congruence.
Qed.

Lemma lines_of_line l rest :
  Forall (λ c, c ≠ Py.LF) l →
  ConfigParser.lines_of (l ++ Py.LF :: rest) = (l ++ [Py.LF]) :: ConfigParser.lines_of rest.
Proof.
  induction 1 as [|c l Hc _ IH]; simpl.
  - reflexivity.
  - destruct (Ascii.eqb_spec c Py.LF); [done|]. by rewrite IH.
Qed.

Lemma universal_newlines_id s : Forall (λ c, c ≠ CR) s → universal_newlines s = s.
Proof.
  induction 1 as [|c s Hc _ IH]; simpl; [done|].
  destruct (Ascii.eqb_spec c CR); [done|]. by rewrite IH.
Qed.

Lemma indent_continuations_id v :
  Forall (λ c, c ≠ Py.LF) v → ConfigParser.indent_continuations v = v.
Proof.
  unfold ConfigParser.indent_continuations.
  induction 1 as [|c v Hc _ IH]; simpl; [done|].
  destruct (Ascii.eqb_spec c Py.LF); [done|]. simpl. by rewrite IH.
Qed.

(** What the boolean tests on keys and values give. *)
Lemma plain_key_chars k :
  plain_key k = true →
  Forall (λ c, ConfigParser.not_delimiter c = true ∧ c ≠ Py.LF ∧ c ≠ CR) k.
Proof.
  unfold plain_key. intros [[H _]%andb_true_iff _]%andb_true_iff.
  pose proof (proj1 (forallb_forall _ _) H) as H'. apply Forall_forall. intros c Hc.
  apply list_elem_of_In, H', negb_true_iff, not_contains in Hc.
  apply Forall_cons in Hc as [H1 Hc]. apply Forall_cons in Hc as [H2 Hc].
  apply Forall_cons in Hc as [H3 Hc]. apply Forall_cons in Hc as [H4 _].
  split_and!; [|done..]. unfold ConfigParser.not_delimiter.
  destruct (Ascii.eqb_spec c "="), (Ascii.eqb_spec c ":"); done.
Qed.

Lemma plain_key_trimmed k : plain_key k = true → trimmed k = true.
Proof. unfold plain_key. by intros [[_ H]%andb_true_iff _]%andb_true_iff. Qed.

Lemma plain_key_head k :
  plain_key k = true →
  ∃ c k', k = c :: k' ∧ Py.isspace c = false
          ∧ c ≠ "#"%char ∧ c ≠ ";"%char ∧ c ≠ "["%char.
Proof.
  intros H. pose proof (trimmed_head k (plain_key_trimmed k H)) as Hsp.
  unfold plain_key in H. apply andb_true_iff in H as [_ H].
  destruct k as [|c k']; [done|]. exists c, k'.
  apply negb_true_iff, not_contains in H.
  apply Forall_cons in H as [H1 H]. apply Forall_cons in H as [H2 H].
  apply Forall_cons in H as [H3 _]. done.
Qed.

Lemma plain_value_chars v :
  plain_value v = true → Forall (λ c, c ≠ Py.LF ∧ c ≠ CR) v.
Proof.
  unfold plain_value. intros [H _]%andb_true_iff.
  pose proof (proj1 (forallb_forall _ _) H) as H'. apply Forall_forall. intros c Hc.
  apply list_elem_of_In, H', negb_true_iff, not_contains in Hc.
  apply Forall_cons in Hc as [H1 Hc]. apply Forall_cons in Hc as [H2 _]. done.
Qed.

Lemma plain_value_trimmed v : plain_value v = true → trimmed v = true.
Proof. unfold plain_value. by intros [_ H]%andb_true_iff. Qed.

Lemma strip_prefix_char_ne a c s : a ≠ c → Py.strip_prefix [a] (c :: s) = None.
Proof. intros H. unfold Py.strip_prefix. by destruct (Ascii.eqb_spec a c). Qed.

Lemma startswith_char_ne a c s : a ≠ c → Py.startswith [a] (c :: s) = false.
Proof.
  intros H. unfold Py.startswith. rewrite strip_prefix_char_ne by done.
  apply bool_decide_eq_false_2. by intros [? ?].
Qed.

Lemma last_key_value k v :
  trimmed v = true →
  match last (k ++ "="%char :: v) with Some c => Py.isspace c = false | None => True end.
Proof.
  intros H. apply trimmed_last in H.
  destruct v as [|d v] using rev_ind.
  - by rewrite last_snoc.
  - rewrite last_snoc in H. rewrite app_comm_cons, (assoc_L (++)), last_snoc. done.
Qed.

(** The table of a section under construction. *)
Lemma dict_get_single {V} s (d : ConfigParser.dict V) :
  ConfigParser.dict_get s [(s, d)] = Some d.
Proof. simpl. by rewrite bool_decide_eq_true_2. Qed.

Lemma dict_set_single {V} s (d d' : V) :
  ConfigParser.dict_set s d' [(s, d)] = [(s, d')].
Proof. simpl. by rewrite bool_decide_eq_true_2. Qed.

Lemma cursect_reading section_name seen :
  ordinary_section section_name →
  ConfigParser.cursect (reading section_name seen)
  = Some ((λ kv : str * str, (kv.1, [kv.2])) <$> seen).
Proof.
  intros [_ Hd]. unfold ConfigParser.cursect, reading. simpl.
  rewrite (bool_decide_eq_false_2 (section_name = ConfigParser.default_section)) by done.
  by rewrite bool_decide_eq_true_2.
Qed.

Lemma keys_fmap_lines (seen : ConfigParser.dict str) :
  ConfigParser.keys ((λ kv : str * str, (kv.1, [kv.2])) <$> seen) = ConfigParser.keys seen.
Proof. unfold ConfigParser.keys. rewrite <- list_fmap_compose. done. Qed.

Lemma not_added section_name seen k :
  k ∉ ConfigParser.keys seen →
  (inr (section_name, k) : str + str * str)
  ∉ ((λ kv : str * str, inr (section_name, kv.1)) <$> reverse seen) ++ [inl section_name].
Proof.
  intros Hk [H|H]%elem_of_app.
  - apply list_elem_of_fmap in H as ([k' v'] & [= ->] & Hin).
    apply Hk. rewrite elem_of_reverse in Hin.
    exact (list_elem_of_fmap_2 fst _ _ Hin).
  - apply list_elem_of_singleton in H. discriminate.
Qed.

(** Reading one written option line stores the option as it was written. *)
Lemma read_option_line section_name seen k v :
  ordinary_section section_name →
  plain_key k = true → plain_value v = true →
  k ∉ ConfigParser.keys seen →
  ConfigParser.read_line (option_line (k, v)) (reading section_name seen)
  = Ok (reading section_name (seen ++ [(k, v)])).
Proof.
  intros Hsec Hk Hv Hfresh.
  destruct (plain_key_head k Hk) as (c & k' & -> & Hsp & Hc1 & Hc2 & Hc3).
  pose proof (plain_key_chars _ Hk) as Hchars.
  pose proof (plain_key_trimmed _ Hk) as Hkt.
  pose proof (plain_value_trimmed _ Hv) as Hvt.
  unfold ConfigParser.read_line, option_line.
  cbn [fst snd].
  assert (Py.strip ((c :: k') ++ "="%char :: v ++ [Py.LF]) = c :: k' ++ "="%char :: v) as ->.
  { change ("="%char :: v ++ [Py.LF]) with (("="%char :: v) ++ [Py.LF]).
    rewrite (assoc_L (++) (c :: k') ("="%char :: v) [Py.LF]).
    apply (strip_line ((c :: k') ++ "="%char :: v)); [done|].
    by apply (last_key_value (c :: k')). }
  cbn [list_ascii_of_string].
  rewrite !startswith_char_ne by done. cbn [orb].
  rewrite (bool_decide_eq_false_2 (c :: k' ++ "="%char :: v = [])) by done.
  change ((c :: k') ++ "="%char :: v ++ [Py.LF]) with (c :: (k' ++ "="%char :: v ++ [Py.LF])).
  rewrite span_false_head by done. cbn [fst length].
  replace (ConfigParser.indent_level (reading section_name seen) <? 0)%nat with false by done.
  rewrite andb_false_r.
  unfold ConfigParser.match_section. cbn [list_ascii_of_string].
  rewrite strip_prefix_char_ne by done. cbn [mbind option_bind].
  rewrite cursect_reading by done.
  change (ConfigParser.sectname (reading section_name seen)) with (Some section_name).
  unfold ConfigParser.match_option.
  change (c :: k' ++ "="%char :: v) with ((c :: k') ++ "="%char :: v).
  rewrite (span_run ConfigParser.not_delimiter (c :: k') ("="%char :: v));
    [|by eapply Forall_impl; [exact Hchars|intros ? [? _]]|done].
  rewrite (rstrip_trimmed _ Hkt).
  rewrite (lstrip_no_leading v) by by apply trimmed_head.
  rewrite (rstrip_trimmed _ Hkt), (strip_trimmed _ Hvt).
  rewrite (bool_decide_eq_false_2 (c :: k' = [])) by done.
  change (ConfigParser.elements_added (reading section_name seen))
    with (((λ kv : str * str, inr (section_name, kv.1)) <$> reverse seen)
            ++ [inl section_name] : list (str + str * str)).
  rewrite bool_decide_eq_false_2 by by apply not_added.
  f_equal. unfold ConfigParser.set_cursect, reading. cbn [ConfigParser.sectname].
  rewrite (bool_decide_eq_false_2 (section_name = ConfigParser.default_section))
    by apply Hsec.
  cbn [ConfigParser.r_defaults ConfigParser.r_sections ConfigParser.elements_added
       ConfigParser.optname ConfigParser.indent_level ConfigParser.e orb].
  rewrite dict_set_single, dict_set_fresh by by rewrite keys_fmap_lines.
  rewrite fmap_app, reverse_app, last_snoc. reflexivity.
Qed.

Lemma read_option_lines section_name todo : ∀ seen rest,
  ordinary_section section_name →
  plain_items (seen ++ todo) →
  ConfigParser.read_lines ((option_line <$> todo) ++ rest) (reading section_name seen)
  = ConfigParser.read_lines rest (reading section_name (seen ++ todo)).
Proof.
  induction todo as [|[k v] todo IH]; intros seen rest Hsec [Hnodup Hplain].
  - by rewrite app_nil_r.
  - unfold ConfigParser.keys in Hnodup.
    rewrite fmap_app, fmap_cons in Hnodup.
    apply NoDup_app in Hnodup as (Hseen & Hdisj & Htodo).
    apply Forall_app in Hplain as [Hps Hpt].
    apply Forall_cons in Hpt as [[Hk Hv] Hpt].
    simpl. rewrite read_option_line; [|done..|].
    + cbn [mbind result_bind].
      rewrite (cons_middle (k, v) seen todo), (assoc_L (++)).
      apply IH; [done|]. split.
      * unfold ConfigParser.keys. rewrite <- (assoc_L (++)), fmap_app. simpl.
        apply NoDup_app. done.
      * rewrite <- (assoc_L (++)). apply Forall_app. split; [done|]. by constructor.
    + intros Hin. apply (Hdisj k); [done|]. simpl. apply list_elem_of_here.
Qed.

Lemma dict_get_snoc {V} k (x : V) (d : ConfigParser.dict V) :
  k ∉ ConfigParser.keys d → ConfigParser.dict_get k (d ++ [(k, x)]) = Some x.
Proof.
  unfold ConfigParser.keys. induction d as [|[k' v'] d IH]; simpl.
  - intros _. by rewrite bool_decide_eq_true_2.
  - intros [Hne Hnot]%not_elem_of_cons. rewrite bool_decide_eq_false_2 by done. by apply IH.
Qed.

Lemma dict_set_snoc {V} k (x y : V) (d : ConfigParser.dict V) :
  k ∉ ConfigParser.keys d → ConfigParser.dict_set k y (d ++ [(k, x)]) = d ++ [(k, y)].
Proof.
  unfold ConfigParser.keys. induction d as [|[k' v'] d IH]; simpl.
  - intros _. by rewrite bool_decide_eq_true_2.
  - intros [Hne Hnot]%not_elem_of_cons. rewrite bool_decide_eq_false_2 by done.
    by rewrite IH.
Qed.

Lemma join_single_lines (items : ConfigParser.dict str) :
  Forall (λ kv : str * str, plain_value kv.2 = true) items →
  ConfigParser.join_multiline_values ((λ kv : str * str, (kv.1, [kv.2])) <$> items) = items.
Proof.
  unfold ConfigParser.join_multiline_values.
  induction 1 as [|[k v] items Hv _ IH]; [done|].
  rewrite !fmap_cons, IH. cbn [fst snd ConfigParser.join_lines].
  by rewrite (rstrip_trimmed v) by by apply plain_value_trimmed.
Qed.

(** The blank line that ends the written section is appended to the last
    option and disappears again when the values are joined. *)
Lemma read_blank_line section_name items :
  ordinary_section section_name →
  plain_items items →
  ∃ d, ConfigParser.read_line [Py.LF] (reading section_name items)
       = Ok (ConfigParser.Reader [] [(section_name, d)]
               (ConfigParser.elements_added (reading section_name items))
               (Some section_name) (fst <$> last items) 0 false)
       ∧ ConfigParser.join_multiline_values d = items.
Proof.
  intros Hsec [Hnodup Hplain].
  assert (Forall (λ kv : str * str, plain_value kv.2 = true) items) as Hvals.
  { eapply Forall_impl; [exact Hplain|]. by intros ? [_ ?]. }
  unfold ConfigParser.read_line.
  change (Py.strip [Py.LF]) with ([] : str).
  change (Py.startswith "#" [] || Py.startswith ";" []) with false.
  cbn [negb andb]. rewrite bool_decide_eq_true_2 by done.
  rewrite cursect_reading by done. rewrite bool_decide_eq_true_2 by eauto. cbn [andb].
  destruct items as [|[k v] items _] using rev_ind.
  - exists []. split; reflexivity.
  - unfold ConfigParser.keys in Hnodup. rewrite fmap_app in Hnodup.
    apply NoDup_app in Hnodup as (_ & Hdisj & _).
    assert (k ∉ ConfigParser.keys items) as Hfresh.
    { intros Hin. apply (Hdisj k Hin). simpl. apply list_elem_of_here. }
    apply Forall_app in Hplain as [_ [[Hk _] _]%Forall_cons].
    apply Forall_app in Hvals as [Hinit [Hv _]%Forall_cons]. cbn [snd] in Hv.
    destruct (plain_key_head k Hk) as (c & k' & -> & _).
    change (ConfigParser.optname (reading section_name (items ++ [(c :: k', v)])))
      with (fst <$> last (items ++ [(c :: k', v)])).
    rewrite last_snoc. cbn [fmap option_fmap option_map fst Py.truthy].
    exists (((λ kv : str * str, (kv.1, [kv.2])) <$> items) ++ [(c :: k', [v; []])]).
    split.
    + f_equal. unfold ConfigParser.append_to_option.
      rewrite cursect_reading by done.
      change (ConfigParser.optname (reading section_name (items ++ [(c :: k', v)])))
        with (fst <$> last (items ++ [(c :: k', v)])).
      rewrite last_snoc. cbn [fmap option_fmap option_map fst].
      rewrite fmap_app. cbn [fmap list_fmap fst snd].
      rewrite dict_get_snoc by by rewrite keys_fmap_lines.
      rewrite dict_set_snoc by by rewrite keys_fmap_lines.
      unfold ConfigParser.set_cursect, reading. cbn [ConfigParser.sectname].
      rewrite (bool_decide_eq_false_2 (section_name = ConfigParser.default_section))
        by apply Hsec.
      cbn [ConfigParser.r_defaults ConfigParser.r_sections ConfigParser.elements_added
           ConfigParser.optname ConfigParser.indent_level ConfigParser.e].
      rewrite dict_set_single, last_snoc. reflexivity.
    + unfold ConfigParser.join_multiline_values. rewrite fmap_app.
      fold (ConfigParser.join_multiline_values ((λ kv : str * str, (kv.1, [kv.2])) <$> items)).
      rewrite join_single_lines by done. f_equal. simpl. f_equal. f_equal.
      apply rstrip_trailing; [|by repeat constructor].
      by apply trimmed_last, plain_value_trimmed.
Qed.

Lemma option_line_chars k v :
  plain_key k = true → plain_value v = true →
  Forall (λ c, c ≠ Py.LF ∧ c ≠ CR) (k ++ "="%char :: v).
Proof.
  intros Hk Hv. apply Forall_app. split.
  - eapply Forall_impl; [exact (plain_key_chars k Hk)|]. by intros ? (_ & ? & ?).
  - constructor; [split; discriminate|]. by apply plain_value_chars.
Qed.

Lemma lines_of_options items rest :
  Forall (λ kv : str * str, plain_key kv.1 = true ∧ plain_value kv.2 = true) items →
  ConfigParser.lines_of (flat_map option_line items ++ rest)
  = (option_line <$> items) ++ ConfigParser.lines_of rest.
Proof.
  induction 1 as [|[k v] items [Hk Hv] _ IH]; [done|].
  cbn [flat_map]. rewrite fmap_cons. unfold option_line at 1 3. cbn [fst snd].
  change ("="%char :: v ++ [Py.LF]) with (("="%char :: v) ++ [Py.LF]).
  rewrite (assoc_L (++) k), <- (assoc_L (++) _ [Py.LF]). cbn [app].
  rewrite <- (assoc_L (++) (k ++ "="%char :: v)). cbn [app].
  rewrite lines_of_line, IH; [done|].
  eapply Forall_impl; [exact (option_line_chars k v Hk Hv)|]. by intros ? [? _].
Qed.

Lemma options_no_cr items :
  Forall (λ kv : str * str, plain_key kv.1 = true ∧ plain_value kv.2 = true) items →
  Forall (λ c, c ≠ CR) (flat_map option_line items).
Proof.
  induction 1 as [|[k v] items [Hk Hv] _ IH]; [constructor|].
  cbn [flat_map]. apply Forall_app. split; [|done].
  unfold option_line. cbn [fst snd].
  change ("="%char :: v ++ [Py.LF]) with (("="%char :: v) ++ [Py.LF]).
  rewrite (assoc_L (++) k). apply Forall_app. split.
  - eapply Forall_impl; [exact (option_line_chars k v Hk Hv)|]. by intros ? [_ ?].
  - by repeat constructor.
Qed.

(** The text [config.write] produces for a one-section manifest with plain
    values: the header, the option lines and a blank line. *)
Lemma write_single section_name items :
  Forall (λ kv : str * str, plain_key kv.1 = true ∧ plain_value kv.2 = true) items →
  ConfigParser.write (ConfigParser.Config [] [(section_name, items)])
  = ("["%char :: section_name ++ ["]"%char]) ++ Py.LF :: flat_map option_line items ++ [Py.LF].
Proof.
  intros Hplain. unfold ConfigParser.write, ConfigParser.write_section.
  cbn [ConfigParser._defaults ConfigParser._sections flat_map fst snd list_ascii_of_string].
  rewrite bool_decide_eq_true_2 by done. rewrite app_nil_r. cbn [app].
  assert (flat_map (λ kv : str * str,
                      kv.1 ++ "="%char :: ConfigParser.indent_continuations kv.2 ++ [Py.LF])
            items
          = flat_map option_line items) as ->.
  { induction Hplain as [|[k v] items [Hk Hv] _ IH]; [done|].
    cbn [flat_map]. rewrite IH. f_equal. unfold option_line. cbn [fst snd].
    rewrite indent_continuations_id; [done|].
    eapply Forall_impl; [exact (plain_value_chars v Hv)|]. by intros ? [? _]. }
  by rewrite <- (assoc_L (++)).
Qed.

(** C5 (amended): a one-section manifest whose names are distinct,
    non-empty, free of [=], [:], CR and LF, without whitespace at either
    end and not starting with [#], [;] or a left bracket, and whose
    versions are free of CR and LF and without whitespace at either end,
    is read back from the written file as exactly the mapping that was
    written, in the same order and with the same spelling of the keys. *)
Theorem manifest_round_trip (path category : str) (items : ConfigParser.dict str) (w : world) :
  plain_items items →
  ∃ w', round_trip path (ConfigParser.Config [] [(section_name_of category, items)]) w
        = Returned (ConfigParser.Config [] [(section_name_of category, items)]) w'
        ∧ files w' !! path
          = Some (ConfigParser.write
                    (ConfigParser.Config [] [(section_name_of category, items)])).
Proof.
  intros Hitems. pose proof Hitems as [Hnodup Hplain].
  pose proof (section_name_of_ordinary category) as Hsec.
  exists (set_written (λ l, l ++ [path])
            (set_files
               (insert path
                  (ConfigParser.write
                     (ConfigParser.Config [] [(section_name_of category, items)]))) w)).
  split; [|apply lookup_insert_eq].
  unfold round_trip, write_text, config_read, read_text, modify, mbind, M_bind.
  cbn [files set_files set_written]. rewrite lookup_insert_eq.
  rewrite (write_single _ _ Hplain) at 1.
  assert (∀ s : str, (s = "Versions" ∨ s = "Release Info") →
          Forall (λ c, c ≠ Py.LF ∧ c ≠ CR) ("["%char :: s ++ ["]"%char])
          ∧ ConfigParser.read_line (("["%char :: s ++ ["]"%char]) ++ [Py.LF])
              (ConfigParser.Reader [] [] [] None None 0 false)
            = Ok (reading s [])) as Hheader.
  { intros s [-> | ->]; (split; [repeat (constructor; [split; discriminate|]); constructor
                               | reflexivity]). }
  destruct (Hheader _ (section_name_of_cases category)) as [Hchars Hread].
  rewrite universal_newlines_id.
  2:{ apply Forall_app. split.
      - eapply Forall_impl; [exact Hchars|]. by intros ? [_ ?].
      - constructor; [discriminate|]. apply Forall_app. split; [by apply options_no_cr|].
        by repeat constructor. }
  unfold ConfigParser.read_string.
  rewrite lines_of_line by (eapply Forall_impl; [exact Hchars|]; by intros ? [? _]).
  rewrite lines_of_options by done.
  cbn [ConfigParser.read_lines]. rewrite Hread. cbn [mbind result_bind].
  change (ConfigParser.lines_of [Py.LF]) with [[Py.LF]].
  rewrite (read_option_lines _ items [] [[Py.LF]] Hsec Hitems). rewrite app_nil_l.
  destruct (read_blank_line _ items Hsec Hitems) as (d & Hblank & Hjoin).
  cbn [ConfigParser.read_lines]. rewrite Hblank.
  cbn [mbind result_bind ConfigParser.e ConfigParser.r_defaults ConfigParser.r_sections
       lift fmap list_fmap fst snd].
  rewrite Hjoin. reflexivity.
Qed.

Lemma manifest_round_trip_witness :
  ∃ w', round_trip "sysmodules/RELEASE_SM.ini"
          (ConfigParser.Config []
             [(section_name_of "sysmodules", [("A" : str, "1.0" : str);
                                               ("B" : str, "2.3.4" : str)])])
          sample_world
        = Returned
            (ConfigParser.Config []
               [(section_name_of "sysmodules", [("A" : str, "1.0" : str);
                                                 ("B" : str, "2.3.4" : str)])])
            w'
        ∧ files w' !! ("sysmodules/RELEASE_SM.ini" : str)
          = Some (ConfigParser.write
                    (ConfigParser.Config []
                       [(section_name_of "sysmodules", [("A" : str, "1.0" : str);
                                                         ("B" : str, "2.3.4" : str)])])).
Proof.
  apply manifest_round_trip. split.
  - repeat constructor; simpl; intros H;
      repeat (apply elem_of_cons in H as [H|H]; [discriminate H|]); by apply elem_of_nil in H.
  - repeat constructor.
Defined.

(** The manifest object never holds a name twice: a second success under
    the same name replaces the version in place. *)
Lemma dict_set_NoDup {V} k (v : V) (d : ConfigParser.dict V) :
  NoDup (ConfigParser.keys d) → NoDup (ConfigParser.keys (ConfigParser.dict_set k v d)).
Proof.
  unfold ConfigParser.keys. induction d as [|[k' v'] d IH]; simpl.
  - intros _. apply NoDup_singleton.
  - intros [Hnot Hd]%NoDup_cons. case_bool_decide as Hk; simpl.
    + by apply NoDup_cons.
    + apply NoDup_cons. split; [|by apply IH].
      intros [->|Hin]%(keys_dict_set k v d k'); done.
Qed.

Lemma manifest_items_NoDup l items :
  NoDup (ConfigParser.keys items) → NoDup (ConfigParser.keys (manifest_items l items)).
Proof.
  unfold manifest_items. revert items.
  induction (successes l) as [|r rs IH]; intros items H; simpl; [done|].
  by apply IH, dict_set_NoDup.
Qed.

(** * Further properties *)

(** ** Repository identifier extractor *)

Lemma re_search_nil {A} (m : str → option A) : Py.re_search m [] = m [].
Proof. unfold Py.re_search. by destruct (m []). Qed.

Lemma re_search_cons {A} (m : str → option A) c s :
  Py.re_search m (c :: s)
  = match m (c :: s) with Some x => Some x | None => Py.re_search m s end.
Proof. reflexivity. Qed.

Lemma re_search_Some_leftmost {A} (m : str → option A) s x :
  Py.re_search m s = Some x →
  ∃ s1 s2, s = s1 ++ s2 ∧ m s2 = Some x
           ∧ ∀ p1 p2, s1 = p1 ++ p2 → p2 ≠ [] → m (p2 ++ s2) = None.
Proof.
  induction s as [|c s IH].
  - rewrite re_search_nil. intros E. exists [], []. split_and!; [done..|].
    intros p1 p2 Hp Hne. by destruct p1, p2.
  - rewrite re_search_cons. destruct (m (c :: s)) eqn:E.
    + intros [= ->]. exists [], (c :: s). split_and!; [done..|].
      intros p1 p2 Hp Hne. by destruct p1, p2.
    + intros (s1 & s2 & -> & Hm & Hleft)%IH. exists (c :: s1), s2. split_and!; [done..|].
      intros [|d p1] p2 Hp Hne; simpl in Hp.
      * subst p2. exact E.
      * injection Hp as -> ->. by apply (Hleft p1).
Qed.

(** X1: whatever the extractor returns is read off the leftmost place at
    which the URL has the shape [/repos/<o>/<r>/releases]: both components
    are non-empty and free of ['/']. *)
Theorem extract_repo_from_url_sound (url o r : str) :
  extract_repo_from_url url = Some (o, r) →
  segment o ∧ segment r
  ∧ ∃ pre post, url = release_url pre o r post
      ∧ ∀ pre' o' r' post', segment o' → segment r' →
          url = release_url pre' o' r' post' → (length pre ≤ length pre')%nat.
Proof.
  unfold extract_repo_from_url.
  intros (s1 & s2 & -> & Hm & Hleft)%re_search_Some_leftmost.
  apply match_repo_Some in Hm as (Ho & Hr & post & ->).
  split_and!; [done..|]. exists s1, post. split; [done|].
  intros pre' o' r' post' Ho' Hr' E.
  destruct (Nat.le_gt_cases (length s1) (length pre')) as [|Hlt]; [done|exfalso].
  change (release_url pre' o' r' post') with (pre' ++ release_url [] o' r' post') in E.
  apply app_eq_inv in E as [(k & -> & E2)|(k & E1 & E2)].
  - destruct k as [|c k]; [rewrite app_nil_r in Hlt; lia|].
    specialize (Hleft pre' (c :: k) eq_refl ltac:(done)).
    rewrite <- E2 in Hleft.
    assert (match_repo (release_url [] o' r' post') = Some (o', r')) as Hs
      by (apply match_repo_Some; eauto).
    congruence.
  - rewrite E1, length_app in Hlt. lia.
Qed.

Lemma extract_repo_from_url_sound_witness :
  segment "foo" ∧ segment "bar".
Proof.
  pose proof (extract_repo_from_url_sound
                "https://api.github.com/repos/foo/bar/releases?per_page=1" "foo" "bar"
                ltac:(vm_compute; reflexivity)) as (Ho & Hr & _).
  exact (conj Ho Hr).
Defined.

(** X2: the URL the fetcher builds for an owner and a repository is taken
    apart again by the extractor into the same two components. *)
Theorem extract_repo_of_releases_url (owner repo : str) :
  segment owner → segment repo →
  extract_repo_from_url (releases_url owner repo) = Some (owner, repo).
Proof.
  intros Ho Hr. unfold extract_repo_from_url.
  change (releases_url owner repo)
    with (("https://api.github.com" : str) ++ release_url [] owner repo "?per_page=1").
  apply re_search_leftmost.
  - apply match_repo_Some. eauto.
  - intros p1 p2 E Hne. simpl in E.
    do 22 (destruct p1 as [|? p1];
           [simpl in E; subst p2; reflexivity | simpl in E; injection E as _ E]).
    destruct p1; simpl in E; [by subst|discriminate E].
Qed.

Lemma extract_repo_of_releases_url_witness :
  extract_repo_from_url (releases_url "foo" "bar") = Some ("foo" : str, "bar" : str).
Proof.
  apply extract_repo_of_releases_url;
    (split; [discriminate | repeat (constructor; [discriminate|]); constructor]).
Defined.

(** ** Tag clean-up, continued *)

Lemma lstrip_char_cons c s : Py.lstrip_char c (c :: s) = Py.lstrip_char c s.
Proof.
  unfold Py.lstrip_char, Py.span; fold Py.span.
  rewrite Ascii.eqb_refl. by destruct (Py.span (Ascii.eqb c) s).
Qed.

Lemma lstrip_char_head c s : head (Py.lstrip_char c s) ≠ Some c.
Proof.
  unfold Py.lstrip_char.
  pose proof (span_snd_head (Ascii.eqb c) s) as H.
  destruct (Py.span (Ascii.eqb c) s).2 as [|d rest]; simpl; [done|].
  intros [= ->]. by rewrite Ascii.eqb_refl in H.
Qed.

(** X3: every leading ['v'] is removed, not only one: any number of
    ['v'] in front of a tag makes no difference to the result, and what
    remains after the stripping never begins with ['v']. *)
Theorem clean_tag_strips_all_leading_v (n : nat) (tag : str) :
  clean_tag_of (replicate n "v"%char ++ tag) = clean_tag_of tag
  ∧ head (Py.lstrip_char "v" tag) ≠ Some "v"%char.
Proof.
  split; [|apply lstrip_char_head].
  unfold clean_tag_of.
  assert (Py.lstrip_char "v" (replicate n "v"%char ++ tag) = Py.lstrip_char "v" tag) as ->; [|done].
  induction n as [|n IH]; [done|]. simpl. by rewrite lstrip_char_cons.
Qed.

Lemma split_nonempty sep s : Py.split sep s ≠ [].
Proof.
  destruct s as [|c s]; simpl; [done|].
  destruct (Ascii.eqb c sep); [done|]. by destruct (Py.split sep s).
Qed.

Lemma split_app sep a b :
  Py.split sep (a ++ sep :: b) = Py.split sep a ++ Py.split sep b.
Proof.
  induction a as [|c a IH]; simpl.
  - by rewrite Ascii.eqb_refl.
  - destruct (Ascii.eqb c sep); rewrite IH; [done|].
    pose proof (split_nonempty sep a). by destruct (Py.split sep a).
Qed.

Lemma split_no_sep sep s : Forall (λ c, c ≠ sep) s → Py.split sep s = [s].
Proof.
  induction 1 as [|c s Hc _ IH]; simpl; [done|].
  destruct (Ascii.eqb_spec c sep); [done|]. by rewrite IH.
Qed.

Lemma contains_app_cons c a b : Py.contains c (a ++ c :: b) = true.
Proof.
  unfold Py.contains. rewrite existsb_app. simpl. rewrite Ascii.eqb_refl.
  by rewrite orb_true_r.
Qed.

(** The last two parts of a tag that ends in two dash-free parts. *)
Lemma split_last_two pre prev last :
  dash_free prev → dash_free last →
  pre = [] ∨ (∃ pre', pre = pre' ++ ["-"%char]) →
  ∃ parts, Py.split "-" (pre ++ prev ++ "-"%char :: last) = parts ++ [prev; last].
Proof.
  intros Hprev Hlast Hpre.
  rewrite (assoc_L (++)), split_app, (split_no_sep _ last) by done.
  destruct Hpre as [->|[pre' ->]].
  - exists []. by rewrite app_nil_l, split_no_sep.
  - exists (Py.split "-" pre').
    rewrite <- (assoc_L (++) pre'). simpl. rewrite split_app.
    rewrite (split_no_sep _ prev) by done. by rewrite <- (assoc_L (++)).
Qed.

(** X4: a tag of more than 30 characters whose last dash-separated part
    has more than 20 characters is replaced by its second-to-last part, a
    dash and the first seven characters of the last part; whatever comes
    before the second-to-last part is dropped. *)
Theorem clean_tag_hash_branch (pre prev last : str) :
  dash_free prev → dash_free last →
  pre = [] ∨ (∃ pre', pre = pre' ++ ["-"%char]) →
  head (pre ++ prev ++ "-"%char :: last) ≠ Some "v"%char →
  (30 < length (pre ++ prev ++ "-"%char :: last))%nat →
  (20 < length last)%nat →
  clean_tag_of (pre ++ prev ++ "-"%char :: last) = prev ++ "-"%char :: take 7 last.
Proof.
  intros Hprev Hlast Hpre Hv Hlen Hhash.
  destruct (split_last_two pre prev last Hprev Hlast Hpre) as [parts Hparts].
  unfold clean_tag_of. rewrite lstrip_char_id by done.
  destruct (Nat.ltb_spec 30 (length (pre ++ prev ++ "-"%char :: last))); [|lia].
  rewrite (assoc_L (++)), contains_app_cons, <- (assoc_L (++)).
  rewrite Hparts. unfold Py.index_from_end.
  rewrite reverse_app. simpl. rewrite length_app. simpl.
  destruct (Nat.ltb_spec 1 (length parts + 2)); [|lia].
  destruct (Nat.ltb_spec 20 (length last)); [|lia]. reflexivity.
Qed.

Lemma clean_tag_hash_branch_witness :
  clean_tag_of ("weekly-canary-" ++ "release" ++ "-"%char
                  :: ("25f89d3aaaaaaaaaaaaaaaaaaaaaaaaaaa" : str))
  = "release" ++ "-"%char :: take 7 ("25f89d3aaaaaaaaaaaaaaaaaaaaaaaaaaa" : str).
Proof.
  apply clean_tag_hash_branch.
  - repeat (constructor; [discriminate|]); constructor.
  - repeat (constructor; [discriminate|]); constructor.
  - right. exists ("weekly-canary" : str). reflexivity.
  - simpl. discriminate.
  - simpl. lia.
  - simpl. lia.
Defined.

Lemma split_parts_chars sep s : ∀ p c, p ∈ Py.split sep s → c ∈ p → c ∈ s.
Proof.
  induction s as [|d s IH]; simpl; intros p c Hp Hc.
  - apply list_elem_of_singleton in Hp. by subst.
  - destruct (Ascii.eqb d sep).
    + apply elem_of_cons in Hp as [->|Hp]; [by apply elem_of_nil in Hc|].
      apply list_elem_of_further. by apply (IH p).
    + pose proof (split_nonempty sep s) as Hne.
      destruct (Py.split sep s) as [|p0 ps]; [done|].
      apply elem_of_cons in Hp as [->|Hp].
      * apply elem_of_cons in Hc as [->|Hc]; [apply list_elem_of_here|].
        apply list_elem_of_further, (IH p0); [apply list_elem_of_here|done].
      * apply list_elem_of_further, (IH p); [by apply list_elem_of_further|done].
Qed.

Lemma lstrip_char_chars d s c : c ∈ Py.lstrip_char d s → c ∈ s.
Proof.
  unfold Py.lstrip_char. intros H. rewrite <- (span_app_eq (Ascii.eqb d) s).
  apply elem_of_app. by right.
Qed.

Lemma index_from_end_chars sep s k c :
  c ∈ default [] (Py.index_from_end (Py.split sep s) k) → c ∈ s.
Proof.
  unfold Py.index_from_end.
  destruct (reverse (Py.split sep s) !! (k - 1)%nat) as [p|] eqn:E; simpl;
    [|by intros ?%elem_of_nil].
  apply list_elem_of_lookup_2 in E. rewrite elem_of_reverse in E. intros Hc.
  by apply (split_parts_chars sep s p).
Qed.

Lemma contains_elem_of c s : Py.contains c s = true ↔ c ∈ s.
Proof.
  unfold Py.contains. rewrite existsb_exists. split.
  - intros (d & Hin & ->%Ascii.eqb_eq). by apply list_elem_of_In.
  - intros Hin. exists c. split; [by apply list_elem_of_In|apply Ascii.eqb_refl].
Qed.

(** X5: the cleaned tag is made of characters of the tag: the clean-up
    drops and rearranges text but introduces no character the tag did
    not have. *)
Theorem clean_tag_chars (tag : str) (c : ascii) : c ∈ clean_tag_of tag → c ∈ tag.
Proof.
  unfold clean_tag_of.
  destruct (30 <? length (Py.lstrip_char "v" tag))%nat; [|apply lstrip_char_chars].
  destruct (Py.contains "-" (Py.lstrip_char "v" tag)) eqn:Hdash;
    [|by intros ?%subseteq_take%lstrip_char_chars].
  destruct (_ && _); [|by intros ?%subseteq_take%lstrip_char_chars].
  destruct (1 <? _)%nat.
  - intros [H|H]%elem_of_app; [by eapply lstrip_char_chars, index_from_end_chars|].
    apply elem_of_app in H as [H|H].
    + apply list_elem_of_singleton in H as ->.
      by apply (lstrip_char_chars "v"), contains_elem_of.
    + by eapply lstrip_char_chars, index_from_end_chars, subseteq_take.
  - intros H. by eapply lstrip_char_chars, index_from_end_chars, subseteq_take.
Qed.

Lemma clean_tag_chars_witness : "2"%char ∈ ("v2.0" : str).
Proof.
  apply (clean_tag_chars "v2.0" "2"). vm_compute. apply list_elem_of_here.
Defined.

(** ** Config reader, continued *)

(** Every match [re.finditer] yields is a match of the pattern at some
    position of the subject. *)
Lemma re_finditer_from_elem {A} (m : bool → str → option (A * nat)) s :
  ∀ skip bol x, x ∈ Py.re_finditer_from m skip bol s →
                ∃ b s1 s2 n, s = s1 ++ s2 ∧ m b s2 = Some (x, n).
Proof.
  induction s as [|c s IH]; intros skip bol x; simpl; [by intros ?%elem_of_nil|].
  assert (∀ k b', x ∈ Py.re_finditer_from m k b' s →
                  ∃ b s1 s2 n, c :: s = s1 ++ s2 ∧ m b s2 = Some (x, n)) as Hrest.
  { intros k b' (b & s1 & s2 & n & -> & Hm)%IH. by exists b, (c :: s1), s2, n. }
  destruct skip; [|apply Hrest].
  destruct (m bol (c :: s)) as [[y n]|] eqn:E; [|apply Hrest].
  intros [->|Hin]%elem_of_cons; [|by eapply Hrest].
  by exists bol, [], (c :: s), n.
Qed.

Lemma not_rbracket_true c : not_rbracket c = true ↔ c ≠ "]"%char.
Proof.
  unfold not_rbracket. destruct (Ascii.eqb_spec c "]"); simpl; split; congruence.
Qed.

Lemma match_header_Some b s section_name rest n :
  match_header b s = Some ((section_name, rest), n) →
  section_name ≠ [] ∧ Forall (λ c, c ≠ "]"%char) section_name
  ∧ s = "["%char :: section_name ++ "]"%char :: rest.
Proof.
  unfold match_header. destruct b; [|done].
  destruct (Py.strip_prefix _ s) as [s1|] eqn:E1; simpl; [|done].
  apply strip_prefix_Some in E1.
  pose proof (span_app_eq not_rbracket s1) as A.
  pose proof (span_fst_Forall not_rbracket s1) as F.
  destruct (Py.span not_rbracket s1) as [nm s2]. simpl in *.
  case_bool_decide; [done|].
  destruct (Py.strip_prefix _ s2) as [s3|] eqn:E2; simpl; [|done].
  apply strip_prefix_Some in E2. intros [= <- <- _].
  split_and!; [done| |by subst].
  eapply Forall_impl; [exact F|]. intros c. apply not_rbracket_true.
Qed.

Lemma search_bracket_cons bol c s :
  Py.re_search_start match_line_bracket bol (c :: s)
  = if bol && Ascii.eqb "[" c then Some 0%nat
    else S <$> Py.re_search_start match_line_bracket (Ascii.eqb c Py.LF) s.
Proof.
  unfold Py.re_search_start at 1; fold Py.re_search_start.
  unfold match_line_bracket at 1, Py.startswith, Py.strip_prefix.
  cbn [list_ascii_of_string].
  destruct bol; [|done]. cbn [andb].
  destruct (Ascii.eqb "[" c).
  - by rewrite bool_decide_eq_true_2 by eauto.
  - by rewrite bool_decide_eq_false_2 by by intros [? ?].
Qed.

(** The content of a section stops before the first line that begins with
    a left bracket. *)
Lemma section_content_no_bracket_line s :
  ∀ bol,
    let body := take (match Py.re_search_start match_line_bracket bol s with
                      | Some i => i
                      | None => length s
                      end) s in
    (bol = true → head body ≠ Some "["%char)
    ∧ ∀ pre post, body ≠ pre ++ Py.LF :: "["%char :: post.
Proof.
  induction s as [|c s IH]; intros bol; cbn zeta.
  - rewrite take_nil. split; [done|]. intros pre post. by destruct pre.
  - rewrite search_bracket_cons.
    specialize (IH (Ascii.eqb c Py.LF)). cbn zeta in IH. destruct IH as [IH1 IH2].
    destruct (bol && Ascii.eqb "[" c) eqn:Hb.
    + simpl. split; [done|]. intros pre post. by destruct pre.
    + assert (take (match S <$> Py.re_search_start match_line_bracket (Ascii.eqb c Py.LF) s with
                    | Some i => i
                    | None => length (c :: s)
                    end) (c :: s)
              = c :: take (match Py.re_search_start match_line_bracket (Ascii.eqb c Py.LF) s with
                           | Some i => i
                           | None => length s
                           end) s) as ->.
      { by destruct (Py.re_search_start match_line_bracket (Ascii.eqb c Py.LF) s). }
      split.
      * intros ->. cbn [andb] in Hb. cbn [head]. intros [= ->].
        by rewrite Ascii.eqb_refl in Hb.
      * intros [|d pre] post; simpl; intros [= -> E].
        -- apply (IH1 eq_refl). by rewrite E.
        -- by apply (IH2 pre post).
Qed.

(** X6: every section the reader visits has a non-empty name without a
    right bracket, found in the file between brackets; its content is the
    text that follows the header, cut before the first line that begins
    with a left bracket. *)
Theorem sections_well_formed (content section_name body : str) :
  (section_name, body) ∈ sections content →
  section_name ≠ []
  ∧ Forall (λ c, c ≠ "]"%char) section_name
  ∧ no_bracket_line body
  ∧ ∃ pre rest, content = pre ++ "["%char :: section_name ++ "]"%char :: rest
                ∧ body `prefix_of` rest.
Proof.
  unfold sections. intros ([nm rest] & [= -> ->] & Hin)%list_elem_of_fmap.
  apply re_finditer_from_elem in Hin as (b & s1 & s2 & n & -> & Hm).
  apply match_header_Some in Hm as (Hne & Hchars & ->).
  split_and!; [done..| |].
  - destruct (section_content_no_bracket_line rest true) as [H1 H2].
    split; [by apply H1|exact H2].
  - exists s1, rest. split; [done|]. unfold section_content_of. cbn [snd].
    apply prefix_take.
Qed.

Lemma sections_well_formed_witness :
  ("MyModule" : str) ≠ [] ∧ Forall (λ c, c ≠ "]"%char) ("MyModule" : str).
Proof.
  pose proof (sections_well_formed sample_ini "MyModule"
                ([Py.LF] ++ "url=https://api.github.com/repos/foo/bar/releases?per_page=1"
                   ++ [Py.LF])
                ltac:(vm_compute; apply list_elem_of_here)) as (H1 & H2 & _).
  exact (conj H1 H2).
Defined.

(** X7: a text without any left bracket, the empty file included, has no
    section and therefore yields no entry. *)
Theorem no_bracket_no_entries (content : str) :
  "["%char ∉ content → sections content = [] ∧ parse_ini_text content = [].
Proof.
  intros Hno.
  assert (sections content = []) as Hs.
  { unfold sections, Py.re_finditer. rewrite re_finditer_from_nil; [done|].
    intros b s1 s2 ->. destruct (match_header b s2) as [[[nm rest] n]|] eqn:E; [|done].
    apply match_header_Some in E as (_ & _ & ->). destruct Hno.
    apply elem_of_app. right. apply list_elem_of_here. }
  split; [done|]. unfold parse_ini_text. by rewrite Hs.
Qed.

Lemma no_bracket_no_entries_witness :
  sections "url=https://api.github.com/repos/foo/bar/releases" = []
  ∧ parse_ini_text "url=https://api.github.com/repos/foo/bar/releases" = [].
Proof.
  apply no_bracket_no_entries. intros H. simpl in H.
  repeat (apply elem_of_cons in H as [H|H]; [discriminate H|]). by apply elem_of_nil in H.
Defined.

Lemma match_github_url_shape b s u n :
  match_github_url b s = Some (u, n) →
  ∃ tail, u = api_prefix ++ tail ∧ tail ≠ []
          ∧ Forall (λ c, Py.isspace c = false) tail.
Proof.
  unfold match_github_url.
  destruct (Py.strip_prefix _ s) as [s1|]; simpl; [|done].
  pose proof (span_fst_Forall not_space s1) as F.
  case_bool_decide as Hne; [done|]. intros [= <- _].
  exists (Py.span not_space s1).1. split_and!; [done..|].
  eapply Forall_impl; [exact F|]. intros c. unfold not_space. by destruct (Py.isspace c).
Qed.

Lemma extract_repo_from_url_segments url o r :
  extract_repo_from_url url = Some (o, r) → segment o ∧ segment r.
Proof.
  unfold extract_repo_from_url. intros (s1 & s2 & -> & Hm)%re_search_Some.
  apply match_repo_Some in Hm as (Ho & Hr & _). done.
Qed.

(** X8: an entry is only made from a section whose content holds a
    release-API URL; the entry's URL is the literal API prefix followed by
    a non-empty run of non-whitespace characters, and its owner and
    repository are what the extractor reads from that URL: two non-empty
    components without ['/']. *)
Theorem entry_of_section_invariants (section : str * str) (e : entry) :
  entry_of_section section = Some e →
  has_release_url section.2
  ∧ (∃ tail, url e = api_prefix ++ tail ∧ tail ≠ []
             ∧ Forall (λ c, Py.isspace c = false) tail)
  ∧ extract_repo_from_url (url e) = Some (owner e, repo e)
  ∧ segment (owner e) ∧ segment (repo e).
Proof.
  destruct section as [section_name body]. unfold entry_of_section. cbn [snd].
  destruct (Py.re_finditer match_github_url body) as [|url0 urls] eqn:Hurls; [done|].
  destruct (extract_repo_from_url url0) as [[o r]|] eqn:Hrepo; [|done].
  intros [= <-]. cbn [url owner repo fst snd].
  assert (url0 ∈ Py.re_finditer match_github_url body) as Hin
    by (rewrite Hurls; apply list_elem_of_here).
  apply re_finditer_from_elem in Hin as (b & s1 & s2 & n & -> & Hm).
  split_and!.
  - eapply has_release_url_app, match_github_url_Some, Hm.
  - by eapply match_github_url_shape.
  - done.
  - exact (proj1 (extract_repo_from_url_segments _ _ _ Hrepo)).
  - exact (proj2 (extract_repo_from_url_segments _ _ _ Hrepo)).
Qed.

Lemma entry_of_section_invariants_witness :
  segment "foo" ∧ segment "bar".
Proof.
  pose proof (entry_of_section_invariants
                ("MyModule" : str,
                 [Py.LF] ++ "url=https://api.github.com/repos/foo/bar/releases?per_page=1"
                   ++ [Py.LF])
                (Entry "MyModule" "foo" "bar"
                   "https://api.github.com/repos/foo/bar/releases?per_page=1")
                ltac:(vm_compute; reflexivity)) as (_ & _ & _ & Ho & Hr).
  exact (conj Ho Hr).
Defined.

(** ** Release fetcher, continued *)

Section fetch_more.
Variable remote : nat → str → response.

(** X9: only the first release of the answer counts; its [tag_name] is
    returned whenever it is present, its [name] only when [tag_name] is
    absent, and an empty list of releases gives [None]. *)
Theorem get_latest_tag_field_choice (owner repo : str) (w : world) :
  (∀ first rest t,
     remote (requests w) (releases_url owner repo) = Releases (first :: rest) →
     first !! ("tag_name" : str) = Some t →
     ∃ w', get_latest_tag remote owner repo w = Returned (Some t) w')
  ∧ (∀ first rest n,
       remote (requests w) (releases_url owner repo) = Releases (first :: rest) →
       first !! ("tag_name" : str) = None → first !! ("name" : str) = Some n →
       ∃ w', get_latest_tag remote owner repo w = Returned (Some n) w')
  ∧ (remote (requests w) (releases_url owner repo) = Releases [] →
     ∃ w', get_latest_tag remote owner repo w = Returned None w').
Proof.
  destruct (get_latest_tag_run remote owner repo w) as (w' & E & _).
  split_and!.
  - intros first rest t Hresp Htag. exists w'. rewrite E, Hresp.
    unfold latest_tag. by rewrite Htag.
  - intros first rest n Hresp Htag Hname. exists w'. rewrite E, Hresp.
    unfold latest_tag. by rewrite Htag, Hname.
  - intros Hresp. exists w'. by rewrite E, Hresp.
Qed.

(** X10: a call of the fetcher never raises and sends exactly one
    request; it touches no file and takes no pause.  It prints one
    diagnostic when the request failed (the rate-limit line for status 403,
    the not-found line for 404) and nothing when an answer came back. *)
Theorem get_latest_tag_effects (owner repo : str) (w : world) :
  ∃ tag w',
    get_latest_tag remote owner repo w = Returned tag w'
    ∧ requests w' = S (requests w)
    ∧ files w' = files w ∧ written w' = written w ∧ sleeps w' = sleeps w
    ∧ match remote (requests w) (releases_url owner repo) with
      | Releases _ => console w' = console w
      | OtherError message => console w' = console w ++ [ErrorMessage message] ∧ tag = None
      | HTTPError code reason =>
          tag = None
          ∧ console w'
            = console w
                ++ [if bool_decide (code = 403%Z) then RateLimitExceeded
                    else if bool_decide (code = 404%Z) then RepositoryNotFound
                    else HttpStatus code reason]
      end.
Proof.
  destruct (get_latest_tag_run remote owner repo w) as (w' & E & (F & W & R) & S & C).
  eexists _, w'. split_and!; [exact E|done..|].
  destruct (remote (requests w) (releases_url owner repo)) as [code reason|message|releases];
    simpl in *.
  - split; [done|]. rewrite C. by repeat case_bool_decide.
  - done.
  - by rewrite C, app_nil_r.
Qed.

End fetch_more.

Lemma get_latest_tag_field_choice_witness :
  (∃ w', get_latest_tag (remote_tag "v2.0.0") "foo" "bar" sample_world
         = Returned (Some ("v2.0.0" : str)) w')
  ∧ (∃ w', get_latest_tag (remote_name_only "Nightly") "foo" "bar" sample_world
           = Returned (Some ("Nightly" : str)) w')
  ∧ (∃ w', get_latest_tag remote_empty "foo" "bar" sample_world = Returned None w').
Proof.
  split_and!.
  - apply (proj1 (get_latest_tag_field_choice (remote_tag "v2.0.0") "foo" "bar" sample_world)
             {[ ("tag_name" : str) := ("v2.0.0" : str) ]} [] "v2.0.0").
    + reflexivity.
    + vm_compute. reflexivity.
  - apply (proj1 (proj2 (get_latest_tag_field_choice (remote_name_only "Nightly") "foo" "bar"
                           sample_world))
             {[ ("name" : str) := ("Nightly" : str) ]} [] "Nightly").
    + reflexivity.
    + vm_compute. reflexivity.
    + vm_compute. reflexivity.
  - apply (proj2 (proj2 (get_latest_tag_field_choice remote_empty "foo" "bar" sample_world))).
    reflexivity.
Defined.

(** ** Per-category processing, continued *)

Section generate_more.
Variable remote : nat → str → response.

(** One iteration: one request, one pause unless it is the first, no file. *)
Lemma loop_body_world section_name i entry st w :
  let w' := world_of (loop_body remote section_name i entry st w) in
  requests w' = S (requests w)
  ∧ sleeps w' = (sleeps w + (if (0 <? i)%nat then 1 else 0))%nat
  ∧ files w' = files w ∧ written w' = written w.
Proof.
  cbn zeta. unfold loop_body.
  assert (∃ w0, (if (0 <? i)%nat then sleep_500ms else mret ()) w = Returned () w0
                ∧ requests w0 = requests w
                ∧ sleeps w0 = (sleeps w + (if (0 <? i)%nat then 1 else 0))%nat
                ∧ files w0 = files w ∧ written w0 = written w) as (w0 & E0 & R0 & S0 & F0 & W0).
  { destruct (0 <? i)%nat; eexists; (split; [reflexivity|]); simpl; split_and!; try done; lia. }
  destruct (get_latest_tag_run remote (owner entry) (repo entry) w0)
    as (w1 & E1 & (F1 & W1 & R1) & S1 & _).
  assert (requests w1 = S (requests w)
          ∧ sleeps w1 = (sleeps w + (if (0 <? i)%nat then 1 else 0))%nat
          ∧ files w1 = files w ∧ written w1 = written w) as Hw1
    by (split_and!; congruence).
  unfold mbind, M_bind, lift. rewrite E0, E1.
  destruct (Py.truthy _); [|exact Hw1].
  by destruct (ConfigParser.set _ _ _ _).
Qed.

Lemma for_entries_world section_name entries : ∀ i st w st' w',
  for_entries remote section_name i entries st w = Returned st' w' →
  requests w' = (requests w + length entries)%nat
  ∧ sleeps w' = (sleeps w + (length entries - (if (0 <? i)%nat then 0 else 1)))%nat.
Proof.
  induction entries as [|entry entries IH]; intros i st w st' w'; simpl.
  - intros [= _ <-]. split; lia.
  - unfold mbind, M_bind.
    pose proof (loop_body_world section_name i entry st w) as Hbody. cbn zeta in Hbody.
    destruct (loop_body remote section_name i entry st w) as [st1 w1|]; [|done].
    simpl in Hbody. destruct Hbody as (R1 & S1 & _).
    intros (R' & S')%IH. rewrite R', S', R1, S1. simpl.
    destruct (0 <? i)%nat; split; lia.
Qed.

(** X11: a category run that completes has sent one request per entry
    and has paused once before every request but the first. *)
Theorem requests_and_pauses (category : str) (entries : list entry) (output_path : str)
    (w : world) (res : category_result) (w' : world) :
  generate_release_ini remote category entries output_path w = Returned res w' →
  requests w' = (requests w + length entries)%nat
  ∧ sleeps w' = (sleeps w + (length entries - 1))%nat.
Proof.
  unfold generate_release_ini.
  rewrite add_section_new by apply section_name_of_ordinary.
  unfold lift. unfold mbind at 1, M_bind at 1. unfold mret at 1, M_ret at 1.
  unfold mbind at 1, M_bind at 1.
  destruct (for_entries remote _ 0 entries _ w) as [st1 w1|] eqn:E; [|done].
  apply for_entries_world in E as [R S]. simpl in S.
  intros [= _ <-]. simpl. done.
Qed.

End generate_more.

Lemma requests_and_pauses_witness :
  ∃ res w',
    generate_release_ini remote_404 "sysmodules" [sample_entry; sample_entry]
      "sysmodules/RELEASE_SM.ini" sample_world = Returned res w'
    ∧ requests w' = 2%nat ∧ sleeps w' = 1%nat.
Proof.
  eexists _, _. split; [vm_compute; reflexivity|].
  eapply (requests_and_pauses remote_404 "sysmodules" [sample_entry; sample_entry]
            "sysmodules/RELEASE_SM.ini" sample_world).
  vm_compute. reflexivity.
Defined.

Lemma dict_get_set {V} k k' (v : V) (d : ConfigParser.dict V) :
  ConfigParser.dict_get k' (ConfigParser.dict_set k v d)
  = if bool_decide (k = k') then Some v else ConfigParser.dict_get k' d.
Proof.
  induction d as [|[k0 v0] d IH]; simpl.
  - case_bool_decide; (rewrite ?bool_decide_eq_true_2, ?bool_decide_eq_false_2 by done); done.
  - destruct (decide (k0 = k)) as [->|Hne].
    + rewrite (bool_decide_eq_true_2 (k = k)) by done. simpl.
      by destruct (decide (k = k')) as [->|?];
        rewrite ?(bool_decide_eq_true_2 (k' = k')), ?(bool_decide_eq_false_2 (k = k')) by done.
    + rewrite (bool_decide_eq_false_2 (k0 = k)) by done. simpl. rewrite IH.
      destruct (decide (k0 = k')) as [->|?].
      * rewrite (bool_decide_eq_true_2 (k' = k')) by done.
        by rewrite (bool_decide_eq_false_2 (k = k')) by done.
      * by rewrite (bool_decide_eq_false_2 (k0 = k')) by done.
Qed.

(** The value the manifest object holds under a name once a list of
    successes is stored: the version of the last of them with that name. *)
Lemma dict_get_stored k (rs : list (entry * option str)) : ∀ items,
  ConfigParser.dict_get k
    (foldl (λ d r, ConfigParser.dict_set (name r.1) (version_of r) d) items rs)
  = match last (filter (λ r, name r.1 = k) rs) with
    | Some r => Some (version_of r)
    | None => ConfigParser.dict_get k items
    end.
Proof.
  induction rs as [|r rs IH] using rev_ind; intros items; [done|].
  rewrite foldl_app, filter_app. simpl. rewrite dict_get_set, IH.
  destruct (decide (name r.1 = k)) as [Hk|Hk].
  - rewrite bool_decide_eq_true_2 by done.
    rewrite filter_cons_True by done. by rewrite filter_nil, last_snoc.
  - rewrite bool_decide_eq_false_2 by done.
    rewrite filter_cons_False by done. by rewrite filter_nil, app_nil_r.
Qed.

Lemma filter_none {A} (P : A → Prop) `{!∀ x, Decision (P x)} (l : list A) :
  (∀ x, x ∈ l → ¬ P x) → filter P l = [].
Proof.
  induction l as [|x l IH]; intros Hl; [done|].
  rewrite filter_cons_False by (apply Hl, list_elem_of_here).
  apply IH. intros y Hy. by apply Hl, list_elem_of_further.
Qed.

Lemma filter_all {A} (P : A → Prop) `{!∀ x, Decision (P x)} (l : list A) :
  (∀ x, x ∈ l → P x) → filter P l = l.
Proof.
  induction l as [|x l IH]; intros Hl; [done|].
  rewrite filter_cons_True by (apply Hl, list_elem_of_here).
  f_equal. apply IH. intros y Hy. by apply Hl, list_elem_of_further.
Qed.

Lemma failed_lines_of_fetched remote n entries :
  (λ r : entry * option str, failed_entry_line r.1) <$> fetched remote n entries
  = failed_entry_line <$> entries.
Proof.
  revert n. induction entries as [|e entries IH]; intros n; [done|].
  simpl. by rewrite IH.
Qed.

Section generate_files.
Variable remote : nat → str → response.

(** X12: the manifest a category run writes holds every name once, and
    under each name the cleaned tag of the last successful entry of that
    name; a name without a successful entry is absent. *)
Theorem manifest_holds_last_success (category : str) (entries : list entry)
    (output_path : str) (w : world) (res : category_result) (w' : world) :
  generate_release_ini remote category entries output_path w = Returned res w' →
  ∃ items,
    files w' !! output_path
    = Some (ConfigParser.write (ConfigParser.Config [] [(section_name_of category, items)]))
    ∧ NoDup (ConfigParser.keys items)
    ∧ ∀ k, ConfigParser.dict_get k items
           = version_of <$> last (stored_under k (fetched remote (requests w) entries)).
Proof.
  intros Hrun.
  destruct (generate_release_ini_run remote category entries output_path w)
    as (w0 & F0 & W0 & Hok & Hbad).
  destruct (decide (all_accepted (fetched remote (requests w) entries))) as [Hall|Hnot];
    [|rewrite (Hbad Hnot) in Hrun; discriminate].
  rewrite (Hok Hall) in Hrun. injection Hrun as _ <-.
  exists (manifest_items (fetched remote (requests w) entries) []). split_and!.
  - apply lookup_insert_eq.
  - apply manifest_items_NoDup. constructor.
  - intros k. unfold manifest_items, stored_under. rewrite dict_get_stored.
    by destruct (last _).
Qed.

(** X13: a category run changes no file but its output file: when it
    returns, the output path has been opened for writing once and every
    other path holds what it held; when the loop raises, the run stops
    before the output file is opened and nothing has been written. *)
Theorem only_the_output_is_written (category : str) (entries : list entry)
    (output_path : str) (w : world) :
  match generate_release_ini remote category entries output_path w with
  | Returned _ w' =>
      written w' = written w ++ [output_path]
      ∧ ∀ path, path ≠ output_path → files w' !! path = files w !! path
  | Raised _ w' => written w' = written w ∧ files w' = files w
  end.
Proof.
  destruct (generate_release_ini_run remote category entries output_path w)
    as (w0 & F0 & W0 & Hok & Hbad).
  destruct (decide (all_accepted (fetched remote (requests w) entries))) as [Hall|Hnot].
  - rewrite (Hok Hall). simpl. split; [by rewrite W0|].
    intros path Hne. rewrite lookup_insert_ne by done. by rewrite F0.
  - rewrite (Hbad Hnot). done.
Qed.

(** X14: when no entry gets a non-empty tag (every request fails, or
    answers without a usable tag), the run still completes: the manifest
    is written with its header and no option, every entry is counted as
    failed and listed, in the order of the entries. *)
Theorem all_fetches_fail (category : str) (entries : list entry) (output_path : str)
    (w : world) :
  (∀ r, r ∈ fetched remote (requests w) entries → ¬ succeeded r) →
  ∃ w', generate_release_ini remote category entries output_path w
        = Returned (CategoryResult category (length entries) 0 (length entries)
                      (failed_entry_line <$> entries)) w'
        ∧ files w' !! output_path
          = Some ("["%char :: section_name_of category ++ "]"%char :: [Py.LF; Py.LF]).
Proof.
  intros Hfail.
  assert (successes (fetched remote (requests w) entries) = []) as Hs.
  { unfold successes. by apply filter_none. }
  assert (failures (fetched remote (requests w) entries) = fetched remote (requests w) entries)
    as Hf.
  { unfold failures. by apply filter_all. }
  destruct (generate_release_ini_run remote category entries output_path w)
    as (w0 & F0 & W0 & Hok & _).
  eexists. split.
  - rewrite Hok by (unfold all_accepted; rewrite Hs; constructor).
    rewrite Hs, Hf, fetched_length. simpl.
    by rewrite failed_lines_of_fetched.
  - cbn [files set_files set_written]. rewrite lookup_insert_eq.
    rewrite manifest_text_no_success by done. reflexivity.
Qed.

End generate_files.

Lemma manifest_holds_last_success_witness :
  ∃ res w' items,
    generate_release_ini (remote_tag "v2.0.0") "sysmodules" [sample_entry]
      "sysmodules/RELEASE_SM.ini" sample_world = Returned res w'
    ∧ files w' !! ("sysmodules/RELEASE_SM.ini" : str)
      = Some (ConfigParser.write
                (ConfigParser.Config [] [(section_name_of "sysmodules", items)]))
    ∧ NoDup (ConfigParser.keys items).
Proof.
  assert (∃ res w', generate_release_ini (remote_tag "v2.0.0") "sysmodules" [sample_entry]
                      "sysmodules/RELEASE_SM.ini" sample_world = Returned res w')
    as (res & w' & E) by (eexists _, _; vm_compute; reflexivity).
  destruct (manifest_holds_last_success _ _ _ _ _ _ _ E) as (items & Hfile & Hnodup & _).
  exists res, w', items. done.
Defined.

Lemma all_fetches_fail_witness :
  ∃ w', generate_release_ini remote_404 "sysmodules" [sample_entry]
          "sysmodules/RELEASE_SM.ini" sample_world
        = Returned (CategoryResult "sysmodules" 1 0 1 ["Other (baz/qux)" : str]) w'
        ∧ files w' !! ("sysmodules/RELEASE_SM.ini" : str)
          = Some ("[Versions]" ++ [Py.LF; Py.LF]).
Proof.
  apply (all_fetches_fail remote_404 "sysmodules" [sample_entry]
           "sysmodules/RELEASE_SM.ini" sample_world).
  intros r Hr. simpl in Hr. apply list_elem_of_singleton in Hr. subst r.
  unfold succeeded. simpl. discriminate.
Defined.




Section completes.
Variable remote : nat → str → response.


End completes.


Lemma only_the_output_is_written_witness :
  files (world_of (generate_release_ini remote_404 "sysmodules" [sample_entry]
                     "sysmodules/RELEASE_SM.ini" sample_world))
    !! ("sysmodules/sysmodules.ini" : str)
  = files sample_world !! ("sysmodules/sysmodules.ini" : str).
Proof.
  pose proof (only_the_output_is_written remote_404 "sysmodules" [sample_entry]
                "sysmodules/RELEASE_SM.ini" sample_world) as H.
  destruct (generate_release_ini remote_404 "sysmodules" [sample_entry]
              "sysmodules/RELEASE_SM.ini" sample_world) as [res w'|e w'].
  - apply (proj2 H). discriminate.
  - destruct H as (_ & H). cbn [world_of]. by rewrite H.
Defined.

(** ** Driver *)

Section main_props.
Variable remote : nat → str → response.

(** [main] is its four blocks in sequence. *)
Lemma main_run_jobs w : main remote w = run_jobs remote category_jobs [] w.
Proof. reflexivity. Qed.

(** What one block does to the results and to the files. *)
Lemma category_job_step cat dir input output all_results w :
  (∀ path, path ≠ dir ++ "/" ++ output →
     files (world_of (category_job remote cat dir input output all_results w)) !! path
     = files w !! path)
  ∧ match category_job remote cat dir input output all_results w with
    | Returned results w' =>
        (results = all_results ∧ written w' = written w)
        ∨ (∃ res, results = all_results ++ [res] ∧ category res = cat
                  ∧ consistent_result res
                  ∧ written w' = written w ++ [dir ++ "/" ++ output])
    | Raised e w' => e = ValueError ∧ written w' = written w
    end.
Proof.
  rewrite category_job_unfold.
  destruct (files w !! (dir ++ "/" ++ input)) as [raw|]; [|split; [done|by left]].
  case_bool_decide as Hentries; [split; [done|by left]|].
  destruct (generate_release_ini_run remote cat (parse_ini_text (universal_newlines raw))
              (dir ++ "/" ++ output) w) as (w0 & F0 & W0 & Hok & Hbad).
  destruct (decide (all_accepted
                      (fetched remote (requests w) (parse_ini_text (universal_newlines raw)))))
    as [Hall|Hnot].
  - rewrite (Hok Hall). cbn [world_of files written set_files set_written]. split.
    + intros path Hne. rewrite lookup_insert_ne by done. by rewrite F0.
    + right. eexists. split_and!; [reflexivity|reflexivity| |by rewrite W0].
      unfold consistent_result. cbn [total success failed result_failed_entries].
      pose proof (successes_failures_length
                    (fetched remote (requests w) (parse_ini_text (universal_newlines raw)))) as Hlen.
      rewrite fetched_length in Hlen. rewrite length_fmap.
      split_and!; [|done..].
      destruct (parse_ini_text (universal_newlines raw)); [done|simpl; lia].
  - rewrite (Hbad Hnot). cbn [world_of]. split; [by rewrite F0|done].
Qed.

(** A sequence of blocks: what is appended to the results, what is
    written, and which files keep their content. *)
Lemma run_jobs_trace jobs : ∀ all_results w,
  ∃ outs,
    outs `sublist_of` (job_output_path <$> jobs)
    ∧ written (world_of (run_jobs remote jobs all_results w)) = written w ++ outs
    ∧ (∀ path, path ∉ (job_output_path <$> jobs) →
         files (world_of (run_jobs remote jobs all_results w)) !! path = files w !! path)
    ∧ match run_jobs remote jobs all_results w with
      | Returned results _ =>
          ∃ new, results = all_results ++ new
                 ∧ (category <$> new) `sublist_of` (job_category <$> jobs)
                 ∧ Forall consistent_result new
                 ∧ length outs = length new
      | Raised e _ => e = ValueError
      end.
Proof.
  induction jobs as [|[[[c d] i] o] jobs IH]; intros all_results w.
  - exists []. simpl. split_and!; [constructor|by rewrite app_nil_r|done|].
    exists []. split_and!; [by rewrite app_nil_r|constructor|constructor|done].
  - simpl run_jobs. unfold mbind, M_bind.
    destruct (category_job_step c d i o all_results w) as [Hfiles Hstep].
    cbn [fst snd] in *.
    destruct (category_job remote c d i o all_results w) as [results1 w1|e w1].
    + destruct (IH results1 w1) as (outs & Hsub & Hwritten & Hkeep & Hres).
      cbn [world_of] in Hfiles.
      destruct Hstep as [[-> Hw1]|(res & -> & Hcat & Hcons & Hw1)].
      * exists outs. split_and!.
        -- rewrite fmap_cons. by apply sublist_cons.
        -- by rewrite Hwritten, Hw1.
        -- intros path [Hne Hnot]%not_elem_of_cons. rewrite Hkeep by done. by apply Hfiles.
        -- destruct (run_jobs remote jobs all_results w1); [|done].
           destruct Hres as (new & -> & Hcats & Hall & Hlen). exists new.
           split_and!; [done| |done..]. rewrite fmap_cons. by apply sublist_cons.
      * exists ((d ++ "/" ++ o) :: outs). split_and!.
        -- rewrite fmap_cons. by apply sublist_skip.
        -- rewrite Hwritten, Hw1. by rewrite <- (assoc_L (++)).
        -- intros path [Hne Hnot]%not_elem_of_cons. rewrite Hkeep by done. by apply Hfiles.
        -- destruct (run_jobs remote jobs (all_results ++ [res]) w1); [|done].
           destruct Hres as (new & -> & Hcats & Hall & Hlen). exists (res :: new).
           split_and!.
           ++ by rewrite <- (assoc_L (++)).
           ++ rewrite !fmap_cons, Hcat. by apply sublist_skip.
           ++ by constructor.
           ++ simpl. by rewrite Hlen.
    + destruct Hstep as [-> Hw1]. cbn [world_of] in *. exists []. split_and!.
      * apply sublist_nil_l.
      * by rewrite app_nil_r.
      * intros path [Hne _]%not_elem_of_cons. by apply Hfiles.
      * done.
Qed.

End main_props.

Lemma totals_add_up results :
  Forall consistent_result results →
  (total_success results + total_failed results = total_entries results)%nat
  ∧ (total_entries results = 0%nat ↔ results = []).
Proof.
  unfold total_success, total_failed, total_entries.
  induction 1 as [|res results (Hpos & Hsum & _) _ [IH1 IH2]]; simpl.
  - done.
  - split; [lia|]. split; [lia|done].
Qed.

Section main_theorems.
Variable remote : nat → str → response.

(** X16: when [main] completes, its results are in the order of the four
    categories, at most one per category; each result counts at least one
    entry, its successes and failures add up to its total and its list of
    failed entries is as long as its failure counter.  The summary totals
    therefore add up too, the total of entries is zero only when there is
    no result at all, and one manifest was written per result. *)
Theorem main_results_consistent (w : world) (results : list category_result) (w' : world) :
  main remote w = Returned results w' →
  (category <$> results) `sublist_of` known_categories
  ∧ Forall consistent_result results
  ∧ (total_success results + total_failed results = total_entries results)%nat
  ∧ (total_entries results = 0%nat ↔ results = [])
  ∧ ∃ outs, written w' = written w ++ outs ∧ length outs = length results.
Proof.
  rewrite main_run_jobs. intros Hrun.
  destruct (run_jobs_trace remote category_jobs [] w) as (outs & _ & Hwritten & _ & Hres).
  rewrite Hrun in Hwritten, Hres. cbn [world_of] in Hwritten.
  destruct Hres as (new & Hnew & Hcats & Hall & Hlen). rewrite app_nil_l in Hnew. subst new.
  destruct (totals_add_up results Hall) as [Hsum Hzero].
  split_and!; [exact Hcats|done..|]. by exists outs.
Qed.

(** X17: whether [main] completes or aborts, the only files it opens for
    writing are the four manifests, each at most once and in the order of
    the categories; every other path, the four input files included,
    holds what it held before. *)
Theorem main_writes_only_manifests (w : world) :
  ∃ outs,
    outs `sublist_of` output_paths
    ∧ written (world_of (main remote w)) = written w ++ outs
    ∧ (∀ path, path ∉ output_paths → files (world_of (main remote w)) !! path = files w !! path)
    ∧ (∀ path, path ∈ input_paths → files (world_of (main remote w)) !! path = files w !! path).
Proof.
  rewrite main_run_jobs.
  destruct (run_jobs_trace remote category_jobs [] w) as (outs & Hsub & Hwritten & Hkeep & _).
  exists outs. split_and!; [done..|].
  intros path Hin. apply Hkeep. intros Hout.
  unfold input_paths, category_jobs in Hin. simpl in Hin, Hout.
  repeat (apply elem_of_cons in Hin as [->|Hin];
          [repeat (apply elem_of_cons in Hout as [Hout|Hout]; [discriminate Hout|]);
           by apply elem_of_nil in Hout|]).
  by apply elem_of_nil in Hin.
Qed.

(** X18: with none of the four input files present, [main] completes
    with no result, sends no request and leaves the world as it found
    it. *)
Theorem main_without_inputs (w : world) :
  (∀ path, path ∈ input_paths → files w !! path = None) →
  main remote w = Returned [] w.
Proof.
  intros Hnone. rewrite main_run_jobs.
  assert (∀ j all_results, j ∈ category_jobs →
            category_job remote j.1.1.1 j.1.1.2 j.1.2 j.2 all_results w
            = Returned all_results w) as Hjob.
  { intros j all_results Hj. rewrite category_job_unfold.
    assert (files w !! job_input_path j = None) as H0.
    { apply Hnone. unfold input_paths. by apply list_elem_of_fmap_2. }
    unfold job_input_path in H0. by rewrite H0. }
  unfold category_jobs in *. cbn [run_jobs]. unfold mbind, M_bind.
  rewrite (Hjob _ []) by apply list_elem_of_here. cbv beta iota.
  rewrite (Hjob _ []) by (apply list_elem_of_further, list_elem_of_here). cbv beta iota.
  rewrite (Hjob _ []) by (do 2 apply list_elem_of_further; apply list_elem_of_here).
  cbv beta iota.
  rewrite (Hjob _ []) by (do 3 apply list_elem_of_further; apply list_elem_of_here).
  reflexivity.
Qed.

End main_theorems.

Lemma main_results_consistent_witness :
  ∃ results w',
    main remote_404 sample_world = Returned results w'
    ∧ (category <$> results) `sublist_of` known_categories
    ∧ Forall consistent_result results.
Proof.
  assert (∃ results w', main remote_404 sample_world = Returned results w')
    as (results & w' & E) by (eexists _, _; vm_compute; reflexivity).
  destruct (main_results_consistent remote_404 sample_world results w' E) as (H1 & H2 & _).
  exists results, w'. done.
Defined.

Lemma main_without_inputs_witness :
  main remote_404 (World ∅ [] 0 0 []) = Returned [] (World ∅ [] 0 0 []).
Proof. apply main_without_inputs. intros path _. apply lookup_empty. Defined.

Lemma main_writes_only_manifests_witness :
  files (world_of (main remote_404 sample_world)) !! ("sysmodules/sysmodules.ini" : str)
  = files sample_world !! ("sysmodules/sysmodules.ini" : str).
Proof.
  destruct (main_writes_only_manifests remote_404 sample_world) as (outs & _ & _ & _ & Hin).
  apply Hin. unfold input_paths, category_jobs. simpl. apply list_elem_of_here.
Defined.

(** ** Composition: from the input file to the manifest read back *)

(** Reading back the text written for a one-section manifest with plain
    names and versions. *)
Lemma read_string_write category items :
  plain_items items →
  ConfigParser.read_string
    (universal_newlines
       (ConfigParser.write (ConfigParser.Config [] [(section_name_of category, items)])))
  = Ok (ConfigParser.Config [] [(section_name_of category, items)]).
Proof.
  intros Hitems. pose proof Hitems as [Hnodup Hplain].
  pose proof (section_name_of_ordinary category) as Hsec.
  rewrite (write_single _ _ Hplain).
  assert (Forall (λ c, c ≠ Py.LF ∧ c ≠ CR)
            ("["%char :: section_name_of category ++ ["]"%char])
          ∧ ConfigParser.read_line
              (("["%char :: section_name_of category ++ ["]"%char]) ++ [Py.LF])
              (ConfigParser.Reader [] [] [] None None 0 false)
            = Ok (reading (section_name_of category) [])) as [Hchars Hread].
  { destruct (section_name_of_cases category) as [-> | ->];
      (split; [repeat (constructor; [split; discriminate|]); constructor | reflexivity]). }
  rewrite universal_newlines_id.
  2:{ apply Forall_app. split.
      - eapply Forall_impl; [exact Hchars|]. by intros ? [_ ?].
      - constructor; [discriminate|]. apply Forall_app. split; [by apply options_no_cr|].
        by repeat constructor. }
  unfold ConfigParser.read_string.
  rewrite lines_of_line by (eapply Forall_impl; [exact Hchars|]; by intros ? [? _]).
  rewrite lines_of_options by done.
  cbn [ConfigParser.read_lines]. rewrite Hread. cbn [mbind result_bind].
  change (ConfigParser.lines_of [Py.LF]) with [[Py.LF]].
  rewrite (read_option_lines _ items [] [[Py.LF]] Hsec Hitems). rewrite app_nil_l.
  destruct (read_blank_line _ items Hsec Hitems) as (d & Hblank & Hjoin).
  cbn [ConfigParser.read_lines]. rewrite Hblank.
  cbn [mbind result_bind ConfigParser.e ConfigParser.r_defaults ConfigParser.r_sections
       fmap list_fmap fst snd].
  by rewrite Hjoin.
Qed.

Lemma dict_set_Forall {V} (P : str * V → Prop) k v (d : ConfigParser.dict V) :
  P (k, v) → Forall P d → Forall P (ConfigParser.dict_set k v d).
Proof.
  intros Hkv. induction 1 as [|[k' v'] d Hx Hd IH]; simpl.
  - constructor; [done|constructor].
  - case_bool_decide as Hk; [subst k'|]; by constructor.
Qed.

Lemma manifest_items_plain l :
  (∀ r, r ∈ successes l → plain_key (name r.1) = true ∧ plain_value (version_of r) = true) →
  plain_items (manifest_items l []).
Proof.
  intros Hplain. split; [apply manifest_items_NoDup; constructor|].
  unfold manifest_items. generalize (@nil (str * str)) (Forall_nil_2
    (λ kv : str * str, plain_key kv.1 = true ∧ plain_value kv.2 = true)).
  induction (successes l) as [|r rs IH]; intros items Hitems; [done|].
  simpl. apply IH.
  - intros r' Hr'. apply Hplain. by apply list_elem_of_further.
  - apply dict_set_Forall; [|done]. apply Hplain, list_elem_of_here.
Qed.

Section compose.
Variable remote : nat → str → response.

(** X19: after a category run that completed, if the names of the
    successful entries and their cleaned tags are plain (see [plain_key]
    and [plain_value]), reading the manifest file with a parser set up as
    the writer's ([optionxform = str], so the keys keep their case) gives
    a parser object whose table holds one section with exactly the stored
    names and versions: under each name the cleaned tag of the last
    successful entry of that name.  The values are the stored ones, as
    [get(..., raw=True)] returns them; interpolation is not applied. *)
Theorem written_manifest_reads_back (category : str) (entries : list entry)
    (output_path : str) (w : world) (res : category_result) (w' : world) :
  generate_release_ini remote category entries output_path w = Returned res w' →
  (∀ r, r ∈ successes (fetched remote (requests w) entries) →
        plain_key (name r.1) = true ∧ plain_value (version_of r) = true) →
  ∃ items,
    config_read output_path w'
    = Returned (ConfigParser.Config [] [(section_name_of category, items)]) w'
    ∧ ∀ k, ConfigParser.dict_get k items
           = version_of <$> last (stored_under k (fetched remote (requests w) entries)).
Proof.
  intros Hrun Hplain.
  destruct (generate_release_ini_run remote category entries output_path w)
    as (w0 & F0 & W0 & Hok & Hbad).
  destruct (decide (all_accepted (fetched remote (requests w) entries))) as [Hall|Hnot];
    [|rewrite (Hbad Hnot) in Hrun; discriminate].
  rewrite (Hok Hall) in Hrun. injection Hrun as _ <-.
  exists (manifest_items (fetched remote (requests w) entries) []). split.
  - unfold config_read, read_text, mbind, M_bind.
    cbn [files set_files set_written]. rewrite lookup_insert_eq.
    unfold manifest_text. rewrite read_string_write by by apply manifest_items_plain.
    reflexivity.
  - intros k. unfold manifest_items, stored_under. rewrite dict_get_stored.
    by destruct (last _).
Qed.

(** X20: a tag made of nothing but the letter ['v'] is a success with an
    empty version: the iteration stores the empty string under the entry's
    name and counts the entry as fetched. *)
Theorem all_v_tag_stored_empty (section_name : str) (i : nat) (entry : entry)
    (st : loop_state) (w : world) (items : ConfigParser.dict str) (n : nat) :
  ordinary_section section_name →
  config st = ConfigParser.Config [] [(section_name, items)] →
  latest_tag (remote (requests w) (releases_url (owner entry) (repo entry)))
  = Some (replicate (S n) "v"%char) →
  ∃ w', loop_body remote section_name i entry st w
        = Returned
            (LoopState
               (ConfigParser.Config []
                  [(section_name, ConfigParser.dict_set (name entry) [] items)])
               (S (success_count st)) (failure_count st) (failed_entries st)) w'.
Proof.
  intros Hsec Hcfg Htag.
  destruct (loop_body_truthy remote section_name i entry st w) as (w' & _ & E).
  { by rewrite Htag. }
  exists w'. rewrite E, Htag, Hcfg. cbn [default from_option id].
  assert (clean_tag_of (replicate (S n) "v"%char) = []) as ->.
  { rewrite <- (app_nil_r (replicate (S n) "v"%char)).
    unfold clean_tag_of.
    assert (Py.lstrip_char "v" (replicate (S n) "v"%char ++ []) = []) as ->; [|done].
    generalize (S n). intros m. induction m as [|m IH]; [done|].
    simpl. by rewrite lstrip_char_cons. }
  by rewrite set_single_section.
Qed.

End compose.

Lemma written_manifest_reads_back_witness :
  ∃ res w' items,
    generate_release_ini (remote_tag "v2.0.0") "sysmodules" [sample_entry]
      "sysmodules/RELEASE_SM.ini" sample_world = Returned res w'
    ∧ config_read "sysmodules/RELEASE_SM.ini" w'
      = Returned (ConfigParser.Config [] [(section_name_of "sysmodules", items)]) w'.
Proof.
  assert (∃ res w', generate_release_ini (remote_tag "v2.0.0") "sysmodules" [sample_entry]
                      "sysmodules/RELEASE_SM.ini" sample_world = Returned res w')
    as (res & w' & E) by (eexists _, _; vm_compute; reflexivity).
  destruct (written_manifest_reads_back _ _ _ _ _ _ _ E) as (items & Hread & _).
  - intros r Hr.
    assert (successes (fetched (remote_tag "v2.0.0") (requests sample_world) [sample_entry])
            = [(sample_entry, Some ("v2.0.0" : str))]) as Hs by (vm_compute; reflexivity).
    rewrite Hs in Hr. apply list_elem_of_singleton in Hr. subst r.
    split; vm_compute; reflexivity.
  - exists res, w', items. done.
Defined.

Lemma all_v_tag_stored_empty_witness :
  ∃ w', loop_body (remote_tag "vv") "Versions" 0 sample_entry (initial_state "Versions")
          sample_world
        = Returned
            (LoopState (ConfigParser.Config [] [("Versions" : str, [("Other" : str, [])])])
                       1 0 []) w'.
Proof.
  apply (all_v_tag_stored_empty (remote_tag "vv") "Versions" 0 sample_entry
           (initial_state "Versions") sample_world [] 1).
  - split; discriminate.
  - reflexivity.
  - reflexivity.
Defined.

Lemma section_body_in_content content section_name body :
  (section_name, body) ∈ sections content → ∃ pre post, content = pre ++ body ++ post.
Proof.
  unfold sections. intros ([nm rest] & [= -> ->] & Hin)%list_elem_of_fmap.
  apply re_finditer_from_elem in Hin as (b & s1 & s2 & n & -> & Hm).
  apply match_header_Some in Hm as (_ & _ & ->).
  unfold section_content_of. cbn [snd].
  set (k := match Py.re_search_start match_line_bracket true rest with
            | Some i => i
            | None => length rest
            end).
  exists (s1 ++ "["%char :: nm ++ ["]"%char]), (drop k rest).
  rewrite take_drop, <- (assoc_L (++)). simpl. by rewrite <- (assoc_L (++)).
Qed.

Lemma has_release_url_inside pre body post :
  has_release_url body → has_release_url (pre ++ body ++ post).
Proof.
  intros (p & c & post' & Hc & ->). apply has_release_url_app.
  exists p, c, (post' ++ post). split; [done|].
  by rewrite <- !(assoc_L (++)).
Qed.

Lemma omap_none {A B} (f : A → option B) (l : list A) :
  (∀ x, x ∈ l → f x = None) → omap f l = [].
Proof.
  induction l as [|x l IH]; intros Hl; [done|].
  simpl. rewrite (Hl x) by apply list_elem_of_here.
  apply IH. intros y Hy. by apply Hl, list_elem_of_further.
Qed.

Section no_url.
Variable remote : nat → str → response.

(** X21: a category whose input file holds no release-API URL anywhere
    yields no entry, and its block of [main] does nothing: no request, no
    manifest, no result. *)
Theorem no_url_no_manifest (cat dir input output : str)
    (all_results : list category_result) (w : world) (raw : str) :
  files w !! (dir ++ "/" ++ input) = Some raw →
  ¬ has_release_url (universal_newlines raw) →
  parse_ini_text (universal_newlines raw) = []
  ∧ category_job remote cat dir input output all_results w = Returned all_results w.
Proof.
  intros Hfile Hno.
  assert (parse_ini_text (universal_newlines raw) = []) as Hparse.
  { rewrite parse_ini_text_omap. apply omap_none. intros [section_name body] Hin.
    unfold entry_of_section. rewrite findall_github_url_nil; [done|].
    intros Hbody. apply Hno.
    apply section_body_in_content in Hin as (pre & post & ->).
    by apply has_release_url_inside. }
  split; [done|]. rewrite category_job_unfold, Hfile, Hparse.
  by rewrite bool_decide_eq_true_2.
Qed.

End no_url.

Lemma no_url_no_manifest_witness :
  category_job remote_404 "apps" "apps" "apps.ini" "RELEASE_APPS.ini" [] notes_world
  = Returned [] notes_world.
Proof.
  pose proof (no_url_no_manifest remote_404 "apps" "apps" "apps.ini" "RELEASE_APPS.ini" []
                notes_world "[Notes]") as H.
  apply H.
  - vm_compute. reflexivity.
  - intros (pre & c & post & _ & E). simpl in E.
    peel_prefix E pre. destruct pre; discriminate E.
Defined.

(** ** The header of the written manifest *)




(** ** The sections of an input file, by their offsets *)

Lemma line_start_snoc pre c : line_start (pre ++ [c]) ↔ c = Py.LF.
Proof.
  unfold line_start. rewrite last_snoc. split.
  - intros [H|[= ->]]; [by destruct pre|done].
  - intros ->. by right.
Qed.

(** The first right bracket of a text splits it in one way only. *)
Lemma rbracket_split a b a' b' :
  Forall (λ c, c ≠ "]"%char) a → Forall (λ c, c ≠ "]"%char) a' →
  a ++ "]"%char :: b = a' ++ "]"%char :: b' → a = a' ∧ b = b'.
Proof.
  intros Ha. revert a'. induction Ha as [|c a Hc _ IH]; intros a' Ha' E.
  - destruct Ha' as [|c' a' Hc' _]; simpl in E; [by injection E|].
    injection E as <- _. done.
  - destruct Ha' as [|c' a' Hc' Ha']; simpl in E.
    + injection E as -> _. done.
    + injection E as <- E. destruct (IH a' Ha' E) as [-> ->]. done.
Qed.

Lemma match_header_iff bol s section_name rest n :
  match_header bol s = Some ((section_name, rest), n)
  ↔ bol = true
    ∧ s = "["%char :: section_name ++ "]"%char :: rest
    ∧ section_name ≠ []
    ∧ Forall (λ c, c ≠ "]"%char) section_name
    ∧ n = (length section_name + 2)%nat.
Proof.
  split.
  - intros H. pose proof (match_header_Some _ _ _ _ _ H) as (Hne & Hchars & Hs).
    unfold match_header in H. destruct bol; [|done].
    split_and!; [done..|].
    rewrite Hs in H.
    change ("["%char :: section_name ++ "]"%char :: rest)
      with (("[" : str) ++ (section_name ++ "]"%char :: rest)) in H.
    rewrite strip_prefix_app in H. simpl in H.
    rewrite span_run in H.
    + rewrite bool_decide_eq_false_2 in H by done.
      change ("]"%char :: rest) with (("]" : str) ++ rest) in H.
      rewrite strip_prefix_app in H. simpl in H. by injection H.
    + eapply Forall_impl; [exact Hchars|]. intros c. apply not_rbracket_true.
    + done.
  - intros (-> & -> & Hne & Hchars & ->). unfold match_header.
    change ("["%char :: section_name ++ "]"%char :: rest)
      with (("[" : str) ++ (section_name ++ "]"%char :: rest)).
    rewrite strip_prefix_app. simpl.
    rewrite span_run.
    + rewrite bool_decide_eq_false_2 by done.
      change ("]"%char :: rest) with (("]" : str) ++ rest).
      by rewrite strip_prefix_app.
    + eapply Forall_impl; [exact Hchars|]. intros c. apply not_rbracket_true.
    + done.
Qed.

(** A header at the offset where the scan stands. *)
Lemma header_at_here content pre s section_name rest :
  content = pre ++ s →
  header_at content (length pre) section_name rest
  ↔ line_start pre
    ∧ s = "["%char :: section_name ++ "]"%char :: rest
    ∧ section_name ≠ []
    ∧ Forall (λ c, c ≠ "]"%char) section_name.
Proof.
  intros ->. split.
  - intros (pre' & E & Hlen & Hstart & Hne & Hchars).
    apply app_inj_1 in E as [-> ->]; done.
  - intros (Hstart & -> & Hne & Hchars). by exists pre.
Qed.

(** A header needs at least three characters after its offset. *)
Lemma header_at_length content p section_name rest :
  header_at content p section_name rest → (p + length section_name + 2 ≤ length content)%nat.
Proof.
  intros (pre & -> & <- & _). rewrite length_app. simpl. rewrite length_app. simpl. lia.
Qed.

Lemma in_file_order_cons {A} (x : nat * A) l :
  Forall (λ y, (x.1 < y.1)%nat) l → in_file_order l → in_file_order (x :: l).
Proof.
  intros Hx Hl i j a b Hij Hi Hj.
  destruct j as [|j]; [lia|]. destruct i as [|i]; simpl in *.
  - injection Hi as <-. by apply (proj1 (Forall_lookup _ _) Hx j).
  - apply (Hl i j); [lia|done..].
Qed.

(** The scan of [re.finditer] for the header pattern, at any point of the
    text: [pre] has been passed, [skip] characters are still covered by
    the last header found.  What it yields from there on are exactly the
    headers at the offsets that no earlier header reaches over, with
    increasing offsets. *)
Lemma finditer_headers content : ∀ s pre skip bol,
  content = pre ++ s →
  (bol = true ↔ line_start pre) →
  (∀ p' nm rs, header_at content p' nm rs → (p' < length pre)%nat →
               (p' + length nm + 2 ≤ length pre + skip)%nat) →
  (skip ≠ 0%nat →
   (∃ a b, s = a ++ "]"%char :: b ∧ S (length a) = skip ∧ Forall (λ c, c ≠ "]"%char) a)
   ∧ ∃ p' nm rs, header_at content p' nm rs ∧ (p' < length pre)%nat
                 ∧ (p' + length nm + 2 = length pre + skip)%nat) →
  ∃ found : list (nat * (str * str)),
    Py.re_finditer_from match_header skip bol s = found.*2
    ∧ Forall (λ x, (length pre + skip ≤ x.1)%nat) found
    ∧ in_file_order found
    ∧ ∀ p nm rs, (p, (nm, rs)) ∈ found
                 ↔ (length pre ≤ p)%nat ∧ header_at content p nm rs ∧ unshadowed content p.
Proof.
  induction s as [|c s IH]; intros pre skip bol Hcontent Hbol Hpast Hcover.
  - exists []. split_and!; [done|constructor|by intros i j a b _ ?| ].
    intros p nm rs. split; [by intros ?%elem_of_nil|].
    intros (Hp & Hh%header_at_length & _). exfalso.
    rewrite Hcontent, app_nil_r in Hh. lia.
  - assert (content = (pre ++ [c]) ++ s) as Hcontent'.
    { by rewrite <- (assoc_L (++)). }
    assert (Ascii.eqb c Py.LF = true ↔ line_start (pre ++ [c])) as Hbol'.
    { rewrite line_start_snoc. apply Ascii.eqb_eq. }
    assert (length (pre ++ [c]) = S (length pre)) as Hlen.
    { rewrite length_app. simpl. lia. }
    cbn [Py.re_finditer_from]. destruct skip as [|k].
    + destruct (match_header bol (c :: s)) as [[[name0 rest0] n]|] eqn:Hm.
      * apply match_header_iff in Hm as (-> & Hs & Hne & Hchars & ->).
        injection Hs as -> ->.
        assert (header_at content (length pre) name0 rest0) as Hhere.
        { apply (header_at_here content pre _ name0 rest0 Hcontent).
          split_and!; [by apply Hbol|done..]. }
        assert (unshadowed content (length pre)) as Hun.
        { intros p' nm rs Hh Hlt. specialize (Hpast p' nm rs Hh Hlt). lia. }
        destruct (IH (pre ++ ["["%char]) (length name0 + 2 - 1)%nat
                    (Ascii.eqb "[" Py.LF) Hcontent' Hbol')
          as (secs & Hsecs & Hlow & Hord & Hiff).
        { intros p' nm rs Hh Hlt. rewrite Hlen in *.
          destruct (decide (p' = length pre)) as [->|Hne'].
          - apply (header_at_here content pre _ nm rs Hcontent) in Hh
              as (_ & [= E] & _ & Hchars').
            apply rbracket_split in E as [<- _]; [lia|done..].
          - assert (p' < length pre)%nat as Hlt' by lia.
            specialize (Hpast p' nm rs Hh Hlt'). lia. }
        { intros _. split.
          - exists name0, rest0. split_and!; [done|lia|done].
          - exists (length pre), name0, rest0. rewrite Hlen. split_and!; [done|lia|lia]. }
        exists ((length pre, (name0, rest0)) :: secs). split_and!.
        -- rewrite Hsecs. reflexivity.
        -- constructor; [simpl; lia|].
           eapply Forall_impl; [exact Hlow|]. intros x. rewrite Hlen. simpl. lia.
        -- apply in_file_order_cons; [|done].
           eapply Forall_impl; [exact Hlow|]. intros x. rewrite Hlen. simpl. lia.
        -- intros p nm rs. rewrite elem_of_cons, Hiff, Hlen. split.
           ++ intros [[= -> -> ->]|(Hp & Hh & Hu)]; [done|]. split_and!; [lia|done..].
           ++ intros (Hp & Hh & Hu).
              destruct (decide (p = length pre)) as [->|Hne'].
              ** left. apply (header_at_here content pre _ nm rs Hcontent) in Hh
                   as (_ & [= E] & _ & Hchars').
                 apply rbracket_split in E as [<- <-]; done.
              ** right. split_and!; [lia|done..].
      * destruct (IH (pre ++ [c]) 0%nat (Ascii.eqb c Py.LF) Hcontent' Hbol')
          as (secs & Hsecs & Hlow & Hord & Hiff).
        { intros p' nm rs Hh Hlt. rewrite Hlen in *.
          destruct (decide (p' = length pre)) as [->|Hne'].
          - exfalso.
            apply (header_at_here content pre _ nm rs Hcontent) in Hh
              as (Hstart & Hs & Hne & Hchars').
            assert (match_header bol (c :: s) = Some ((nm, rs), (length nm + 2)%nat)) as E.
            { apply match_header_iff. split_and!; [by apply Hbol|done..]. }
            congruence.
          - assert (p' < length pre)%nat as Hlt' by lia.
            specialize (Hpast p' nm rs Hh Hlt'). lia. }
        { done. }
        exists secs. split_and!; [done| |done|].
        -- eapply Forall_impl; [exact Hlow|]. intros x. rewrite Hlen. simpl. lia.
        -- intros p nm rs. rewrite Hiff, Hlen. split.
           ++ intros (Hp & Hh & Hu). split_and!; [lia|done..].
           ++ intros (Hp & Hh & Hu).
              destruct (decide (p = length pre)) as [->|Hne'].
              ** exfalso.
                 apply (header_at_here content pre _ nm rs Hcontent) in Hh
                   as (Hstart & Hs & Hne & Hchars').
                 assert (match_header bol (c :: s) = Some ((nm, rs), (length nm + 2)%nat))
                   as E.
                 { apply match_header_iff. split_and!; [by apply Hbol|done..]. }
                 congruence.
              ** split_and!; [lia|done..].
    + destruct (Hcover ltac:(done)) as ((a & b & Hs & Ha & Hchars) & (p0 & nm0 & rs0 & Hh0 & Hlt0 & Hend0)).
      injection Ha as Ha.
      destruct (IH (pre ++ [c]) k (Ascii.eqb c Py.LF) Hcontent' Hbol')
        as (secs & Hsecs & Hlow & Hord & Hiff).
      { intros p' nm rs Hh Hlt. rewrite Hlen in *.
        destruct (decide (p' = length pre)) as [->|Hne'].
        - apply (header_at_here content pre _ nm rs Hcontent) in Hh
            as (_ & Hs' & _ & Hchars').
          rewrite Hs in Hs'.
          change ("["%char :: nm ++ "]"%char :: rs)
            with (("["%char :: nm) ++ "]"%char :: rs) in Hs'.
          apply rbracket_split in Hs' as [-> _]; [simpl in Ha; lia|done|].
          by constructor.
        - assert (p' < length pre)%nat as Hlt' by lia.
          specialize (Hpast p' nm rs Hh Hlt'). lia. }
      { intros Hk. split.
        - destruct a as [|c' a]; [simpl in Ha; lia|].
          injection Hs as -> ->. apply Forall_cons in Hchars as [_ Hchars].
          exists a, b. split_and!; [done|simpl in Ha; lia|done].
        - exists p0, nm0, rs0. rewrite Hlen. split_and!; [done|lia|lia]. }
      exists secs. split_and!; [done| |done|].
      * eapply Forall_impl; [exact Hlow|]. intros x. rewrite Hlen. simpl. lia.
      * intros p nm rs. rewrite Hiff, Hlen. split.
        -- intros (Hp & Hh & Hu). split_and!; [lia|done..].
        -- intros (Hp & Hh & Hu).
           destruct (decide (p = length pre)) as [->|Hne'].
           ++ exfalso. specialize (Hu p0 nm0 rs0 Hh0 Hlt0). lia.
           ++ split_and!; [lia|done..].
Qed.

(** The content of a section is all of the text after the header, or it
    stops right before a left bracket at the beginning of a line. *)
Lemma section_content_stops_at_bracket s :
  ∀ bol,
    let body := take (match Py.re_search_start match_line_bracket bol s with
                      | Some i => i
                      | None => length s
                      end) s in
    body = s
    ∨ ∃ post, s = body ++ "["%char :: post
              ∧ match body with [] => bol = true | _ :: _ => last body = Some Py.LF end.
Proof.
  induction s as [|c s IH]; intros bol; cbn zeta.
  - left. by rewrite take_nil.
  - rewrite search_bracket_cons.
    specialize (IH (Ascii.eqb c Py.LF)). cbn zeta in IH.
    destruct (bol && Ascii.eqb "[" c) eqn:Hb.
    + right. apply andb_prop in Hb as [-> <-%Ascii.eqb_eq]. by exists s.
    + assert (take (match S <$> Py.re_search_start match_line_bracket (Ascii.eqb c Py.LF) s with
                    | Some i => i
                    | None => length (c :: s)
                    end) (c :: s)
              = c :: take (match Py.re_search_start match_line_bracket (Ascii.eqb c Py.LF) s with
                           | Some i => i
                           | None => length s
                           end) s) as ->.
      { by destruct (Py.re_search_start match_line_bracket (Ascii.eqb c Py.LF) s). }
      destruct IH as [->|(post & E & Hlast)]; [by left|].
      right. exists post. split; [simpl; by rewrite <- E|].
      destruct (take _ s) as [|d body]; [|done].
      apply Ascii.eqb_eq in Hlast as ->. done.
Qed.

Lemma section_content_body rest : body_of rest (section_content_of rest).
Proof.
  unfold body_of, section_content_of. cbn zeta. split.
  - destruct (section_content_no_bracket_line rest true) as [H1 H2].
    split; [by apply H1|exact H2].
  - destruct (section_content_stops_at_bracket rest true) as [H|(post & E & Hlast)];
      [by left|].
    right. exists post. split; [done|].
    unfold line_start. destruct (take _ rest); [by left|by right].
Qed.

(** A body that ends at the beginning of a line and is followed by a left
    bracket cannot be continued without a line that begins with a
    bracket. *)
Lemma no_bracket_line_extend body post :
  line_start body → ¬ no_bracket_line (body ++ "["%char :: post).
Proof.
  intros [->|Hlast] [Hhead Hline]; [by apply Hhead|].
  destruct (last_Some body Py.LF) as [(pre & ->) _]; [done|].
  apply (Hline pre post). by rewrite <- (assoc_L (++)).
Qed.

Lemma body_of_unique rest body1 body2 :
  body_of rest body1 → body_of rest body2 → body1 = body2.
Proof.
  intros [Hn1 H1] [Hn2 H2].
  destruct H1 as [->|(post1 & E1 & Hs1)], H2 as [->|(post2 & E2 & Hs2)]; [done| | |].
  - exfalso. rewrite E2 in Hn1. by apply (no_bracket_line_extend body2 post2).
  - exfalso. rewrite E1 in Hn2. by apply (no_bracket_line_extend body1 post1).
  - assert (body1 `prefix_of` rest) as P1 by (rewrite E1; by eexists).
    assert (body2 `prefix_of` rest) as P2 by (rewrite E2; by eexists).
    destruct (prefix_weak_total _ _ _ P1 P2) as [[mid ->]|[mid ->]].
    + destruct mid as [|d mid]; [by rewrite app_nil_r|]. exfalso.
      rewrite E1 in E2. rewrite <- (assoc_L (++)) in E2. apply app_inv_head in E2.
      injection E2 as <- _. by apply (no_bracket_line_extend body1 mid).
    + destruct mid as [|d mid]; [by rewrite app_nil_r|]. exfalso.
      rewrite E2 in E1. rewrite <- (assoc_L (++)) in E1. apply app_inv_head in E1.
      injection E1 as <- _. by apply (no_bracket_line_extend body2 mid).
Qed.

Lemma in_file_order_inv {A} (x : nat * A) l :
  in_file_order (x :: l) → Forall (λ y, (x.1 < y.1)%nat) l ∧ in_file_order l.
Proof.
  intros H. split.
  - apply Forall_lookup. intros j y Hj. apply (H 0%nat (S j)); [lia|done..].
  - intros i j a b Hij Hi Hj. apply (H (S i) (S j)); [lia|done..].
Qed.

(** Keeping some of the items, each at its offset, keeps the order. *)
Lemma in_file_order_omap {A B} (f : nat * A → option B) (l : list (nat * A)) :
  in_file_order l → in_file_order (omap (λ x, (λ y, (x.1, y)) <$> f x) l).
Proof.
  induction l as [|x l IH]; intros H; [by intros i j a b _ ?|].
  apply in_file_order_inv in H as [Hx Hl]. specialize (IH Hl).
  cbn [omap list_omap]. destruct (f x) as [y|]; [|done].
  apply in_file_order_cons; [|done].
  apply Forall_forall. intros [p y'] (x' & Hx' & E)%list_elem_of_omap.
  destruct (f x'); [|done]. injection E as <- _.
  by apply (proj1 (Forall_forall _ _) Hx).
Qed.

Lemma in_file_order_fmap {A B} (f : A → B) (l : list (nat * A)) :
  in_file_order l → in_file_order ((λ x, (x.1, f x.2)) <$> l).
Proof.
  intros H i j a b Hij Hi Hj.
  rewrite list_lookup_fmap in Hi, Hj.
  destruct (l !! i) as [a'|] eqn:Ei; [|done].
  destruct (l !! j) as [b'|] eqn:Ej; [|done].
  injection Hi as <-. injection Hj as <-. by apply (H i j).
Qed.

(** At one offset there is one header, and one section. *)
Lemma header_at_unique content p nm rs nm' rs' :
  header_at content p nm rs → header_at content p nm' rs' → nm = nm' ∧ rs = rs'.
Proof.
  intros (pre & -> & <- & _ & _ & Hchars) (pre' & E & Hlen & _ & _ & Hchars').
  apply app_inj_1 in E as [_ [= E]]; [|done].
  by apply rbracket_split in E.
Qed.

Lemma section_at_unique content p nm body nm' body' :
  section_at content p nm body → section_at content p nm' body' → nm = nm' ∧ body = body'.
Proof.
  intros (rs & Hh & _ & Hb) (rs' & Hh' & _ & Hb').
  destruct (header_at_unique _ _ _ _ _ _ Hh Hh') as [-> ->].
  split; [done|]. by apply (body_of_unique rs').
Qed.

(** The sections the loop of [parse_ini_file] visits are the sections of
    the text, by increasing offset. *)
Lemma sections_by_offset content :
  ∃ secs : list (nat * (str * str)),
    sections content = secs.*2
    ∧ in_file_order secs
    ∧ ∀ p nm body, (p, (nm, body)) ∈ secs ↔ section_at content p nm body.
Proof.
  destruct (finditer_headers content content [] 0%nat true) as (found & E & _ & Hord & Hiff).
  { done. }
  { split; [by left|done]. }
  { intros p' nm rs _ Hlt. simpl in Hlt. lia. }
  { done. }
  exists ((λ x : nat * (str * str), (x.1, (x.2.1, section_content_of x.2.2))) <$> found).
  split_and!.
  - unfold sections, Py.re_finditer. rewrite E.
    rewrite <- !list_fmap_compose. by apply list_fmap_ext.
  - by apply (in_file_order_fmap (λ m : str * str, (m.1, section_content_of m.2))).
  - intros p nm body. rewrite list_elem_of_fmap. split.
    + intros ([p' [nm' rs]] & [= -> -> ->] & Hin). apply Hiff in Hin as (_ & Hh & Hu).
      exists rs. split_and!; [done..|]. apply section_content_body.
    + intros (rs & Hh & Hu & Hb). exists (p, (nm, rs)). split.
      * cbn [fst snd]. do 2 f_equal. by apply (body_of_unique rs), section_content_body.
      * apply Hiff. split_and!; [simpl; lia|done..].
Qed.

Lemma entry_of_section_Some nm body e :
  entry_of_section (nm, body) = Some e → name e = nm ∧ has_release_url body.
Proof.
  unfold entry_of_section.
  destruct (Py.re_finditer match_github_url body) as [|url0 urls] eqn:E; [done|].
  destruct (extract_repo_from_url url0); [|done]. intros [= <-]. split; [done|].
  assert (url0 ∈ Py.re_finditer match_github_url body) as Hin.
  { rewrite E. apply list_elem_of_here. }
  apply re_finditer_from_elem in Hin as (b & s1 & s2 & n & -> & Hm).
  eapply has_release_url_app, match_github_url_Some, Hm.
Qed.

(** C8 (amended): reading the text of an existing file returns, whatever
    its sections hold, and leaves the files as they are.  A section is
    opened only by a left bracket at the beginning of a line, followed by
    a non-empty name without a right bracket and a right bracket, provided
    no earlier header reaches over it; an indented header opens none.  Its
    body is the text after the header up to the next line that begins with
    a left bracket.  The entries read are located at the offsets of their
    sections: they come by increasing offset, that is in the order of
    their sections in the file; each is the entry of the section at its
    offset, carries the name of that section, and the body of that section
    holds a match of the release-URL pattern.  A section whose body holds
    no such match has no entry at its offset. *)
Theorem parse_ini_file_in_file_order (file_path : str) (w : world) (raw : str) :
  files w !! file_path = Some raw →
  ∃ located : list (nat * entry),
    parse_ini_file file_path w = Returned (located.*2) w
    ∧ in_file_order located
    ∧ (∀ p e, (p, e) ∈ located
              ↔ ∃ section_name body,
                  section_at (universal_newlines raw) p section_name body
                  ∧ entry_of_section (section_name, body) = Some e)
    ∧ (∀ p e, (p, e) ∈ located
              → ∃ body, section_at (universal_newlines raw) p (name e) body
                        ∧ has_release_url body)
    ∧ (∀ p section_name body,
         section_at (universal_newlines raw) p section_name body →
         ¬ has_release_url body → ∀ e, (p, e) ∉ located).
Proof.
  intros Hfile.
  destruct (sections_by_offset (universal_newlines raw)) as (secs & Hsecs & Hord & Hiff).
  set (located := omap (λ x : nat * (str * str), (λ e, (x.1, e)) <$> entry_of_section x.2) secs).
  assert (∀ p e, (p, e) ∈ located
                 ↔ ∃ section_name body,
                     section_at (universal_newlines raw) p section_name body
                     ∧ entry_of_section (section_name, body) = Some e) as Hloc.
  { intros p e. unfold located. rewrite list_elem_of_omap. split.
    - intros ([p' [nm body]] & Hin & E). cbn [fst snd] in E.
      destruct (entry_of_section (nm, body)) as [e'|] eqn:Ee; [|done].
      injection E as -> ->. exists nm, body. split; [by apply Hiff|done].
    - intros (nm & body & Hsec & Ee). exists (p, (nm, body)).
      split; [by apply Hiff|]. cbn [fst snd]. by rewrite Ee. }
  exists located. split_and!.
  - unfold parse_ini_file, read_text, mbind, M_bind. rewrite Hfile.
    rewrite parse_ini_text_omap, Hsecs. do 2 f_equal.
    unfold located. clear. induction secs as [|x secs IH]; [done|].
    cbn [fmap list_fmap omap list_omap]. rewrite IH.
    by destruct (entry_of_section x.2).
  - by apply in_file_order_omap.
  - exact Hloc.
  - intros p e (nm & body & Hsec & Ee)%Hloc.
    destruct (entry_of_section_Some _ _ _ Ee) as [<- Hurl]. by exists body.
  - intros p nm body Hsec Hno e (nm' & body' & Hsec' & Ee)%Hloc.
    destruct (section_at_unique _ _ _ _ _ _ Hsec Hsec') as [<- <-].
    by apply entry_of_section_Some in Ee as [_ Hurl].
Qed.

Lemma parse_ini_file_in_file_order_witness :
  ∃ located : list (nat * entry),
    parse_ini_file "sysmodules/sysmodules.ini" sample_world
    = Returned (located.*2) sample_world
    ∧ in_file_order located.
Proof.
  destruct (parse_ini_file_in_file_order "sysmodules/sysmodules.ini" sample_world sample_ini)
    as (located & Hread & Hord & _).
  - vm_compute. reflexivity.
  - exists located. split; [exact Hread|exact Hord].
Defined.

(** C8 (as the claim states it): with a section header line taken as a
    line whose trimmed form is a name between brackets, the file
    [indented_ini] has the sections [A] and [B]; the body of [A] is empty
    and holds no URL, the URL stands in the body of [B].  The reader does
    not take the indented line for a header: it yields one entry, named
    [A], with the repository found under [B]. *)
Lemma indented_header_not_a_section :
  spec_sections indented_ini
  = [ ("A" : str, [] : str);
      ("B" : str, "url=https://api.github.com/repos/o/r/releases" ++ [Py.LF]) ]
  ∧ ¬ has_release_url []
  ∧ parse_ini_file "apps/apps.ini" indented_world
    = Returned [ Entry "A" "o" "r" "https://api.github.com/repos/o/r/releases" ]
        indented_world.
Proof.
  split_and!.
  - vm_compute. reflexivity.
  - intros (pre & c & post & _ & E). by destruct pre.
  - vm_compute. reflexivity.
Qed.
